(** * PEA simulator: the engine [simulate_pea] and the comparator
    [calcul_scenarios] of [main.py], embedded and verified.

    The Python code computes on [float] (IEEE 754 binary64) and on unbounded
    [int].  The embedding is written over an interface [Arith] holding the
    arithmetic the code uses, so that what depends only on the structure of
    the code is proved for any arithmetic; the program itself runs at the
    instance [Float64]: Rocq's primitive binary64 floats, with rounding,
    infinities, NaN, and [int()] raising on them.

    Exceptions are values: a function that can raise returns a [result]. *)

From Stdlib Require Import ZArith List Bool String Lia.
From Stdlib Require Import Ascii DecimalString DecimalZ DecimalPos.
From Stdlib Require Floats.
Import ListNotations.

Set Implicit Arguments.
Set Warnings "-inexact-float".
Local Open Scope Z_scope.

(** ** Exceptions and the error monad *)

(** The exceptions the modelled code can raise: [int()] on NaN and on an
    infinity, and indexing an empty list. *)
Inductive exn : Type :=
| ValueError
| OverflowError
| IndexError.

Inductive result (A : Type) : Type :=
| Ok (a : A)
| Raise (e : exn).

Arguments Ok {A} a.
Arguments Raise {A} e.

Definition bind {A B : Type} (c : result A) (k : A -> result B) : result B :=
  match c with
  | Ok a => k a
  | Raise e => Raise e
  end.

Notation "x <- c ;; k" := (bind c (fun x => k))
  (at level 61, c at next level, right associativity).

(** [for x in xs: ys.append(f x)], stopping at the first exception. *)
Fixpoint mapM {A B : Type} (f : A -> result B) (xs : list A) : result (list B) :=
  match xs with
  | [] => Ok []
  | x :: xs' => y <- f x ;; ys <- mapM f xs' ;; Ok (y :: ys)
  end.

(** ** The arithmetic of the program *)

Declare Scope num_scope.
Delimit Scope num_scope with num.

Class Arith (num : Type) : Type := {
  num_add : num -> num -> num;
  num_sub : num -> num -> num;
  num_mul : num -> num -> num;
  num_div : num -> num -> num;
  (** [x < y] and [x <= y]; [x > y] is [y < x]. *)
  num_ltb : num -> num -> bool;
  num_leb : num -> num -> bool;
  (** Truth value of a number in [if x:], that is [x != 0]. *)
  num_truthy : num -> bool;
  (** The literals [0.0], [1], [12], [100] and [1e-9]. *)
  lit_0 : num;
  lit_1 : num;
  lit_12 : num;
  lit_100 : num;
  lit_1e_9 : num;
  (** [int(x)]: truncation toward zero, raising where Python does. *)
  num_int : num -> result Z
}.

Infix "+" := num_add : num_scope.
Infix "-" := num_sub : num_scope.
Infix "*" := num_mul : num_scope.
Infix "/" := num_div : num_scope.
Infix "<?" := num_ltb : num_scope.
Infix "<=?" := num_leb : num_scope.
Notation "x >? y" := (num_ltb y x) : num_scope.

(** ** Data *)

(** [SimulationResult] (the dataclass). *)
Record SimulationResult (num : Type) : Type := {
  capital_final_brut : num;
  net_investi : num;
  mois_plafond : option Z;
  historique : list num
}.

(** The local variables of [simulate_pea] that the monthly loop updates. *)
Record Locals (num : Type) : Type := {
  l_capital : num;
  l_net_investi : num;
  l_mois_plafond : option Z;
  l_leftover : num;
  l_historique : list num
}.

(** One entry of [scenarios_data].  The source stores the numbers already
    rendered by f-strings; the fields here hold the number each f-string
    renders ([sc_taux] for the key taux_str, and so on), and
    [sc_plafond_atteint] holds the string itself. *)
Record Scenario (num : Type) : Type := {
  sc_taux : num;
  sc_plafond_atteint : string;
  sc_capital_final_brut : num;
  sc_interets_bruts : num;
  sc_impots : num;
  sc_capital_final_net : num;
  sc_historique : list num
}.

(** A cell of the comparison table, and the lines of the report, before
    string formatting. *)
Inductive Cell (num : Type) : Type :=
| CStr (s : string)
| CNum (x : num).

Inductive Ligne (num : Type) : Type :=
| LTitre
| LDuree (duree_annees : num)
| LPlafond (plafond_pea : num)
| LCapitalInitial (capital_initial : num)
| LVersement (versement_mensuel : num)
| LFrais (frais : num)
| LInflation (inflation : num)
| LVide
| LEntete (taux : list num)
| LMetrique (label : string) (cells : list (Cell num)).

(** First component of what [calcul_scenarios] returns: the error message
    or the report. *)
Inductive Rapport (num : Type) : Type :=
| Erreur (msg : string)
| Comparatif (lines : list (Ligne num)).

Arguments CStr {num} s.
Arguments CNum {num} x.
Arguments LTitre {num}.
Arguments LVide {num}.
Arguments LDuree {num} _.
Arguments LPlafond {num} _.
Arguments LCapitalInitial {num} _.
Arguments LVersement {num} _.
Arguments LFrais {num} _.
Arguments LInflation {num} _.
Arguments LEntete {num} _.
Arguments LMetrique {num} _ _.
Arguments Erreur {num} msg.
Arguments Comparatif {num} lines.

(** ** Helpers shared by both functions *)

(** [range(start, stop)]. *)
Definition range (start stop : Z) : list Z :=
  map (fun i => start + Z.of_nat i) (seq 0 (Z.to_nat (stop - start))).

(** [xs[-1]]. *)
Definition list_last {A : Type} (xs : list A) : result A :=
  match rev xs with
  | [] => Raise IndexError
  | x :: _ => Ok x
  end.

Definition str_of_int (n : Z) : string := NilZero.string_of_int (Z.to_int n).

(** [format_duree_mois]. *)
Definition format_duree_mois (nb_mois : Z) : string :=
  let annees := nb_mois / 12 in
  let mois := nb_mois mod 12 in
  let suite := if mois =? 0 then EmptyString
               else (" et " ++ str_of_int mois ++ " mois")%string in
  if annees =? 0 then (str_of_int mois ++ " mois")%string
  else if annees =? 1 then ("1 an" ++ suite)%string
  else (str_of_int annees ++ " ans" ++ suite)%string.

(** ** The engine and the comparator *)

Section Program.
Context {num : Type} {A : Arith num}.
Local Open Scope num_scope.

(** Python's two-argument [min] and [max]: the first argument is kept
    unless the second is strictly smaller (larger). *)
Definition py_min (a b : num) : num := if b <? a then b else a.
Definition py_max (a b : num) : num := if b >? a then b else a.

Definition is_none {T : Type} (o : option T) : bool :=
  match o with None => true | Some _ => false end.

(** Lines 38-52: initialisation and the initial deposit, up to and
    including [historique.append(capital)]. *)
Definition depot_initial (capital_initial plafond_pea : num) : Locals num :=
  let capital := lit_0 in
  let net_investi := lit_0 in
  let leftover := plafond_pea in
  if leftover >? lit_0 then
    let deposit_init := py_min capital_initial leftover in
    let capital := capital + deposit_init in
    let net_investi := net_investi + deposit_init in
    let leftover := leftover - deposit_init in
    {| l_capital := capital;
       l_net_investi := net_investi;
       l_mois_plafond := if leftover <=? lit_1e_9 then Some 0%Z else None;
       l_leftover := leftover;
       l_historique := [] ++ [capital] |}
  else
    {| l_capital := capital;
       l_net_investi := net_investi;
       l_mois_plafond := None;
       l_leftover := leftover;
       l_historique := [] ++ [capital] |}.

(** Lines 56-60: growth, then fees, of one month. *)
Definition capitalisation (r_m frais_mensuel capital : num) : num :=
  let capital := capital * (lit_1 + r_m) in
  if frais_mensuel >? lit_0 then capital * (lit_1 - frais_mensuel) else capital.

(** Lines 56-69: the body of the monthly loop. *)
Definition mois_step (r_m frais_mensuel versement_mensuel : num)
    (l : Locals num) (mois : Z) : Locals num :=
  let capital := capitalisation r_m frais_mensuel (l_capital l) in
  if l_leftover l >? lit_1e_9 then
    let deposit := py_min versement_mensuel (l_leftover l) in
    let capital := capital + deposit in
    let net_investi := l_net_investi l + deposit in
    let leftover := l_leftover l - deposit in
    {| l_capital := capital;
       l_net_investi := net_investi;
       l_mois_plafond :=
         if leftover <=? lit_1e_9 then
           match l_mois_plafond l with
           | None => Some mois
           | Some m => Some m
           end
         else l_mois_plafond l;
       l_leftover := leftover;
       l_historique := l_historique l ++ [capital] |}
  else
    {| l_capital := capital;
       l_net_investi := l_net_investi l;
       l_mois_plafond := l_mois_plafond l;
       l_leftover := l_leftover l;
       l_historique := l_historique l ++ [capital] |}.

Definition taux_mensuel (taux_annuel_percent inflation_percent : num) : num :=
  ((taux_annuel_percent - inflation_percent) / lit_100) / lit_12.

Definition frais_mensuels (frais_annuels_percent : num) : num :=
  (frais_annuels_percent / lit_100) / lit_12.

(** The loop of lines 55-69 run over the months [1 .. n]. *)
Definition boucle (r_m frais_mensuel versement_mensuel : num)
    (n : Z) (l : Locals num) : Locals num :=
  fold_left (mois_step r_m frais_mensuel versement_mensuel) (range 1 (n + 1)) l.

(** The locals after [k] months of the simulation. *)
Definition etat_mois (taux_annuel_percent capital_initial versement_mensuel
    plafond_pea frais_annuels_percent inflation_percent : num) (k : Z)
    : Locals num :=
  boucle (taux_mensuel taux_annuel_percent inflation_percent)
         (frais_mensuels frais_annuels_percent) versement_mensuel k
         (depot_initial capital_initial plafond_pea).

(** Lines 72-74. *)
Definition interets_bruts (capital net_investi : num) : num :=
  py_max (capital - net_investi) lit_0.

Definition impots (taux_impot_percent capital net_investi : num) : num :=
  (taux_impot_percent / lit_100) * interets_bruts capital net_investi.

Definition capital_net (taux_impot_percent capital net_investi : num) : num :=
  capital - impots taux_impot_percent capital net_investi.

(** [simulate_pea]. *)
Definition simulate_pea
    (duree_annees taux_annuel_percent capital_initial versement_mensuel
     plafond_pea frais_annuels_percent taux_impot_percent inflation_percent : num)
    : result (SimulationResult num) :=
  nb_mois <- num_int (duree_annees * lit_12) ;;
  let l := etat_mois taux_annuel_percent capital_initial versement_mensuel
             plafond_pea frais_annuels_percent inflation_percent nb_mois in
  Ok {| capital_final_brut :=
          capital_net taux_impot_percent (l_capital l) (l_net_investi l);
        net_investi := l_net_investi l;
        mois_plafond := l_mois_plafond l;
        historique := l_historique l |}.

(** Lines 113-127: one iteration of the loop over [rates]. *)
Definition scenario (duree_annees capital_initial versement_mensuel
    plafond_pea frais inflation taux_impot taux : num) : result (Scenario num) :=
  sim <- simulate_pea duree_annees taux capital_initial versement_mensuel
           plafond_pea frais taux_impot inflation ;;
  dernier <- list_last (historique sim) ;;
  let interets_bruts := py_max (dernier - net_investi sim) lit_0 in
  let duree_str :=
    match mois_plafond sim with
    | Some m => format_duree_mois m
    | None => "non atteint"%string
    end in
  Ok {| sc_taux := taux;
        sc_plafond_atteint := duree_str;
        sc_capital_final_brut := dernier;
        sc_interets_bruts := interets_bruts;
        sc_impots := (taux_impot / lit_100) * interets_bruts;
        sc_capital_final_net := capital_final_brut sim;
        sc_historique := historique sim |}.

(** Lines 129-158: the lines of the report. *)
Definition rapport_lines (duree_annees capital_initial versement_mensuel
    plafond_pea frais inflation : num) (scenarios_data : list (Scenario num))
    : list (Ligne num) :=
  [LTitre; LDuree duree_annees; LPlafond plafond_pea;
   LCapitalInitial capital_initial; LVersement versement_mensuel]
  ++ (if num_truthy frais then [LFrais frais] else [])
  ++ (if num_truthy inflation then [LInflation inflation] else [])
  ++ [LVide; LEntete (map (@sc_taux num) scenarios_data)]
  ++ [LMetrique "Plafond atteint"
        (map (fun d => CStr (sc_plafond_atteint d)) scenarios_data);
      LMetrique "Capital final brut"
        (map (fun d => CNum (sc_capital_final_brut d)) scenarios_data);
      LMetrique "Intérêts bruts"
        (map (fun d => CNum (sc_interets_bruts d)) scenarios_data);
      LMetrique "Impôts"
        (map (fun d => CNum (sc_impots d)) scenarios_data);
      LMetrique "Capital final net"
        (map (fun d => CNum (sc_capital_final_net d)) scenarios_data)].

(** [calcul_scenarios]. *)
Definition calcul_scenarios
    (duree_annees capital_initial versement_mensuel plafond_pea : num)
    (rates : list num) (frais inflation taux_impot : num)
    : result (Rapport num * list (Scenario num)) :=
  if negb (Nat.eqb (List.length rates) 3) then
    Ok (Erreur "ERREUR : Veuillez renseigner exactement 3 taux.", [])
  else
    scenarios_data <-
      mapM (scenario duree_annees capital_initial versement_mensuel
              plafond_pea frais inflation taux_impot) rates ;;
    Ok (Comparatif (rapport_lines duree_annees capital_initial
                      versement_mensuel plafond_pea frais inflation
                      scenarios_data),
        scenarios_data).
End Program.

(** ** The monthly step as the specification words it

    What the specification's algorithm (step 6 a-c) says one month does to
    the four quantities it tracks; compared below with [mois_step]. *)

Record SpecState (num : Type) : Type := {
  s_capital : num;
  s_totalContributed : num;
  s_remainingCap : num;
  s_capReachedMonth : option Z
}.

Section Specification.
Context {num : Type} {A : Arith num}.
Local Open Scope num_scope.

Definition spec_month (annualRate inflationRate annualFeeRate
    monthlyContribution : num) (m : Z) (s : SpecState num) : SpecState num :=
  let r_m := ((annualRate - inflationRate) / lit_100) / lit_12 in
  let f_m := (annualFeeRate / lit_100) / lit_12 in
  let grown := s_capital s * (lit_1 + r_m) in
  let after_fee := if f_m >? lit_0 then grown * (lit_1 - f_m) else grown in
  if s_remainingCap s >? lit_1e_9 then
    let deposit := py_min monthlyContribution (s_remainingCap s) in
    let remaining := s_remainingCap s - deposit in
    {| s_capital := after_fee + deposit;
       s_totalContributed := s_totalContributed s + deposit;
       s_remainingCap := remaining;
       s_capReachedMonth :=
         if (remaining <=? lit_1e_9) && is_none (s_capReachedMonth s)
         then Some m else s_capReachedMonth s |}
  else
    {| s_capital := after_fee;
       s_totalContributed := s_totalContributed s;
       s_remainingCap := s_remainingCap s;
       s_capReachedMonth := s_capReachedMonth s |}.

(** The four tracked quantities, read off the locals of [simulate_pea]. *)
Definition spec_view (l : Locals num) : SpecState num :=
  {| s_capital := l_capital l;
     s_totalContributed := l_net_investi l;
     s_remainingCap := l_leftover l;
     s_capReachedMonth := l_mois_plafond l |}.

(** A scenario [sc] of the comparator agrees with the engine run at the
    same rate: [sim] is the engine's result, [dernier] the last entry of
    its history and [l] the engine's locals when its loop ends; the gross
    interest and the tax are the comparator's, recomputed from [dernier]. *)
Definition scenario_agrees (duree_annees capital_initial versement_mensuel
    plafond_pea frais inflation taux_impot : num)
    (taux : num) (sc : Scenario num) : Prop :=
  exists (sim : SimulationResult num) (nb_mois : Z) (dernier : num),
    simulate_pea duree_annees taux capital_initial versement_mensuel
      plafond_pea frais taux_impot inflation = Ok sim
    /\ num_int (duree_annees * lit_12) = Ok nb_mois
    /\ list_last (historique sim) = Ok dernier
    /\ sc_interets_bruts sc = py_max (dernier - net_investi sim) lit_0
    /\ sc_impots sc = (taux_impot / lit_100) * sc_interets_bruts sc
    /\ (let l := etat_mois taux capital_initial versement_mensuel
                   plafond_pea frais inflation nb_mois in
        sc_interets_bruts sc
        = interets_bruts (l_capital l) (l_net_investi l))
    /\ dernier - sc_impots sc = capital_final_brut sim.
End Specification.

(** ** The program on binary64 floats *)

Module Float64.
Import Floats.

(** [int(x)] read on the IEEE value of [x]: a finite float is
    [(-1)^s * m * 2^e], truncated toward zero. *)
Definition int_of_SF (f : spec_float) : result Z :=
  match f with
  | S754_zero _ => Ok 0
  | S754_infinity _ => Raise OverflowError
  | S754_nan => Raise ValueError
  | S754_finite s m e => Ok (cond_Zopp s (Z.shiftl (Zpos m) e))
  end.

(** [math.floor(x)] on the IEEE value, where it is defined. *)
Definition floor_SF (f : spec_float) : option Z :=
  match f with
  | S754_zero _ => Some 0
  | S754_infinity _ => None
  | S754_nan => None
  | S754_finite s m e => Some (Z.shiftl (cond_Zopp s (Zpos m)) e)
  end.

Definition floor (x : float) : option Z := floor_SF (Prim2SF x).

(** The value of a finite float [m * 2^e], in units of [2^-1074] (the
    smallest positive binary64 number; every finite binary64 float is a
    whole number of them). *)
Definition scaled (m : positive) (e : Z) : Z := Z.pos m * 2 ^ (e + 1074).

(** What the rounding procedure of the IEEE specification holds after
    shifting a mantissa [M] right by [k] bits: the quotient, and no round
    or sticky bit when nothing was lost. *)
Definition shr_inv (M : Z) (k : Z) (mrs : shr_record) : Prop :=
  shr_m mrs = M / 2 ^ k
  /\ (M mod 2 ^ k = 0 -> shr_r mrs = false /\ shr_s mrs = false).

(** Neither NaN nor an infinity. *)
Definition finite (x : float) : bool :=
  match Prim2SF x with
  | S754_zero _ | S754_finite _ _ _ => true
  | S754_infinity _ | S754_nan => false
  end.

(** The value of a finite float in units of [2^-1074], an integer; [None]
    for the infinities and NaN. *)
Definition units (x : float) : option Z :=
  match Prim2SF x with
  | S754_zero _ => Some 0
  | S754_finite s m e => Some (cond_Zopp s (scaled m e))
  | S754_infinity _ | S754_nan => None
  end.

(** [f] is a zero, or a positive finite float in canonical form, and its
    value is [X] units of [2^-1074]. *)
Definition nonneg_value (f : spec_float) (X : Z) : Prop :=
  (exists s, f = S754_zero s /\ X = 0)
  \/ (exists m e, f = S754_finite false m e
                  /\ bounded prec emax m e = true /\ X = scaled m e).

(** The invariant of the loop on the cap of value [C]: after [k] months
    what is contributed and what is left of the cap are finite and not
    negative, and their sum exceeds the cap by at most the rounding of the
    deposits made so far, [2^-51] of the cap for each. *)
Definition cap_split (C : Z) (k : Z) (l : Locals float) : Prop :=
  exists N L : Z,
    nonneg_value (Prim2SF (l_net_investi l)) N
    /\ nonneg_value (Prim2SF (l_leftover l)) L
    /\ 2 ^ 51 * (N + L) <= C * (2 ^ 51 + k + 1).

#[export] Instance arith : Arith float := {
  num_add := PrimFloat.add;
  num_sub := PrimFloat.sub;
  num_mul := PrimFloat.mul;
  num_div := PrimFloat.div;
  num_ltb := PrimFloat.ltb;
  num_leb := PrimFloat.leb;
  num_truthy := fun x => negb (PrimFloat.eqb x 0%float);
  lit_0 := 0%float;
  lit_1 := 1%float;
  lit_12 := 12%float;
  lit_100 := 100%float;
  lit_1e_9 := 1e-9%float;
  num_int := fun x => int_of_SF (Prim2SF x)
}.
End Float64.



(** ** Strings without a space

    The decimal rendering of an integer holds no space, which is what makes
    the strings of [format_duree_mois] readable back. *)
Fixpoint sans_espace (s : string) : bool :=
  match s with
  | EmptyString => true
  | String c s' => negb (Ascii.eqb c " "%char) && sans_espace s'
  end.

(** ** The window

    What [run_simulation] reads and writes of the window.  A field is
    [None] when [DoubleVar.get()] raises [tk.TclError] on its content.
    [text_result] is the content of the text widget ([None] while it is
    empty), [courbes] the curves on the axes, one per [ax.plot] call,
    [ax_xlabel], [ax_ylabel], [ax_title] and [ax_legend] the decorations
    of the axes, and [erreurs] the messages shown with
    [messagebox.showerror]. *)
Record Courbe (num : Type) : Type := {
  c_x : list Z;
  c_y : list num;
  c_label : num
}.

Record Fenetre (num : Type) : Type := {
  var_duree : option num;
  var_capital : option num;
  var_versement : option num;
  var_plafond : option num;
  var_rate1 : option num;
  var_rate2 : option num;
  var_rate3 : option num;
  var_frais : option num;
  var_inflation : option num;
  var_taux_impot : option num;
  text_result : option (Rapport num);
  courbes : list (Courbe num);
  ax_xlabel : string;
  ax_ylabel : string;
  ax_title : string;
  ax_legend : bool;
  erreurs : list string
}.

(** The ten values read in the [try] block of [run_simulation]. *)
Record Saisie (num : Type) : Type := {
  s_duree : num;
  s_capital_initial : num;
  s_versement : num;
  s_plafond : num;
  s_rate1 : num;
  s_rate2 : num;
  s_rate3 : num;
  s_frais : num;
  s_inflation : num;
  s_taux_impot : num
}.

Section Interface.
Context {num : Type} {A : Arith num}.
Local Open Scope num_scope.

(** [canvas.draw()] (line 268) renders the figure with matplotlib, which
    is not code of this program: [canvas_draw w] is the exception it
    raises on the window [w], if any. *)
Variable canvas_draw : Fenetre num -> option exn.

(** Lines 241-254: the [try] block; [None] when any [get()] raises. *)
Definition lire_champs (w : Fenetre num) : option (Saisie num) :=
  match var_duree w, var_capital w, var_versement w, var_plafond w,
        var_rate1 w, var_rate2 w, var_rate3 w, var_frais w,
        var_inflation w, var_taux_impot w with
  | Some duree, Some capital_initial, Some versement, Some plafond,
    Some rate1, Some rate2, Some rate3, Some frais, Some inflation,
    Some taux_impot =>
      Some {| s_duree := duree; s_capital_initial := capital_initial;
              s_versement := versement; s_plafond := plafond;
              s_rate1 := rate1; s_rate2 := rate2; s_rate3 := rate3;
              s_frais := frais; s_inflation := inflation;
              s_taux_impot := taux_impot |}
  | _, _, _, _, _, _, _, _, _, _ => None
  end.

Definition showerror (msg : string) (w : Fenetre num) : Fenetre num :=
  {| var_duree := var_duree w; var_capital := var_capital w;
     var_versement := var_versement w; var_plafond := var_plafond w;
     var_rate1 := var_rate1 w; var_rate2 := var_rate2 w;
     var_rate3 := var_rate3 w; var_frais := var_frais w;
     var_inflation := var_inflation w; var_taux_impot := var_taux_impot w;
     text_result := text_result w;
     courbes := courbes w;
     ax_xlabel := ax_xlabel w; ax_ylabel := ax_ylabel w;
     ax_title := ax_title w; ax_legend := ax_legend w;
     erreurs := erreurs w ++ [msg] |}.

(** [text_result.delete("1.0", END)]; [text_result.insert(END, rapport)];
    [ax.clear()], which removes the curves and the decorations. *)
Definition afficher_rapport (rapport : Rapport num) (w : Fenetre num)
    : Fenetre num :=
  {| var_duree := var_duree w; var_capital := var_capital w;
     var_versement := var_versement w; var_plafond := var_plafond w;
     var_rate1 := var_rate1 w; var_rate2 := var_rate2 w;
     var_rate3 := var_rate3 w; var_frais := var_frais w;
     var_inflation := var_inflation w; var_taux_impot := var_taux_impot w;
     text_result := Some rapport;
     courbes := [];
     ax_xlabel := EmptyString; ax_ylabel := EmptyString;
     ax_title := EmptyString; ax_legend := false;
     erreurs := erreurs w |}.

(** [ax.plot(x, y, label=...)]: matplotlib raises [ValueError] when [x]
    and [y] differ in length, and adds the curve otherwise. *)
Definition ax_plot (x : list Z) (y : list num) (label : num)
    (w : Fenetre num) : result (Fenetre num) :=
  if Nat.eqb (List.length x) (List.length y) then
    Ok {| var_duree := var_duree w; var_capital := var_capital w;
          var_versement := var_versement w; var_plafond := var_plafond w;
          var_rate1 := var_rate1 w; var_rate2 := var_rate2 w;
          var_rate3 := var_rate3 w; var_frais := var_frais w;
          var_inflation := var_inflation w;
          var_taux_impot := var_taux_impot w;
          text_result := text_result w;
          courbes := courbes w ++ [{| c_x := x; c_y := y; c_label := label |}];
          ax_xlabel := ax_xlabel w; ax_ylabel := ax_ylabel w;
          ax_title := ax_title w; ax_legend := ax_legend w;
          erreurs := erreurs w |}
  else Raise ValueError.

(** Lines 262-263: the loop over [scenarios].  An exception leaves the
    window as the calls before it made it. *)
Fixpoint tracer (months : list Z) (scenarios : list (Scenario num))
    (w : Fenetre num) : Fenetre num * option exn :=
  match scenarios with
  | [] => (w, None)
  | data :: suite =>
      match ax_plot months (sc_historique data) (sc_taux data) w with
      | Ok w' => tracer months suite w'
      | Raise e => (w, Some e)
      end
  end.

(** Lines 264-267: [set_xlabel], [set_ylabel], [set_title] and
    [legend]. *)
Definition decorer (w : Fenetre num) : Fenetre num :=
  {| var_duree := var_duree w; var_capital := var_capital w;
     var_versement := var_versement w; var_plafond := var_plafond w;
     var_rate1 := var_rate1 w; var_rate2 := var_rate2 w;
     var_rate3 := var_rate3 w; var_frais := var_frais w;
     var_inflation := var_inflation w; var_taux_impot := var_taux_impot w;
     text_result := text_result w;
     courbes := courbes w;
     ax_xlabel := "Mois"; ax_ylabel := "Capital (€)";
     ax_title := "Évolution du capital dans le temps"; ax_legend := true;
     erreurs := erreurs w |}.

(** [run_simulation]: the window it leaves, and the exception that
    escapes from it, if any. *)
Definition run_simulation (w : Fenetre num) : Fenetre num * option exn :=
  match lire_champs w with
  | None => (showerror "Veuillez vérifier les valeurs saisies." w, None)
  | Some s =>
      let rates := [s_rate1 s; s_rate2 s; s_rate3 s] in
      match calcul_scenarios (s_duree s) (s_capital_initial s)
              (s_versement s) (s_plafond s) rates (s_frais s)
              (s_inflation s) (s_taux_impot s) with
      | Raise e => (w, Some e)
      | Ok (rapport, scenarios) =>
          let w1 := afficher_rapport rapport w in
          match scenarios with
          | [] => (w1, Some IndexError)
          | premier :: _ =>
              let months :=
                range 0 (Z.of_nat (List.length (sc_historique premier))) in
              match tracer months scenarios w1 with
              | (w2, Some e) => (w2, Some e)
              | (w2, None) =>
                  let w3 := decorer w2 in
                  (w3, canvas_draw w3)
              end
          end
      end
  end.
End Interface.

(** [create_widgets] (lines 170-238): the window as it opens, every field
    holding its default, the text empty and nothing plotted. *)
Module Float64Interface.
Import Floats.
Local Open Scope float_scope.

End Float64Interface.


(** * Properties *)

Unset Implicit Arguments.

(** ** Ranges and the error monad *)

Lemma range_empty (start stop : Z) : stop <= start -> range start stop = [].
Proof.
  intros Hle. unfold range.
  replace (Z.to_nat (stop - start)) with 0%nat by lia. reflexivity.
Qed.

Lemma range_snoc (start stop : Z) :
  start <= stop -> range start (stop + 1) = range start stop ++ [stop].
Proof.
  intros Hle. unfold range.
  replace (Z.to_nat (stop + 1 - start)) with (S (Z.to_nat (stop - start))) by lia.
  rewrite seq_S, map_app. cbn [map Nat.add]. do 2 f_equal. lia.
Qed.

Lemma range_length (start stop : Z) :
  List.length (range start stop) = Z.to_nat (stop - start).
Proof. unfold range. now rewrite length_map, length_seq. Qed.

Lemma list_last_snoc {T : Type} (xs : list T) (x : T) :
  list_last (xs ++ [x]) = Ok x.
Proof. unfold list_last. now rewrite rev_app_distr. Qed.

Lemma mapM_ok_length {T U : Type} (f : T -> result U) (xs : list T) (ys : list U) :
  mapM f xs = Ok ys -> Forall2 (fun x y => f x = Ok y) xs ys.
Proof.
  revert ys. induction xs as [|x xs IH]; intros ys; cbn.
  - intros [= <-]. constructor.
  - destruct (f x) as [y|e] eqn:Hfx; cbn; [|discriminate].
    destruct (mapM f xs) as [ys'|e]; cbn; [|discriminate].
    intros [= <-]. constructor; auto.
Qed.

Lemma mapM_total {T U : Type} (f : T -> result U) (xs : list T) :
  (forall x, In x xs -> exists y, f x = Ok y) -> exists ys, mapM f xs = Ok ys.
Proof.
  induction xs as [|x xs IH]; intros Hall; cbn.
  - now exists [].
  - destruct (Hall x) as [y Hy]; [now left|].
    destruct IH as [ys Hys]; [intros; apply Hall; now right|].
    rewrite Hy, Hys. cbn. now eexists.
Qed.

Lemma mapM_raises {T U : Type} (f : T -> result U) (xs : list T) (e : exn) :
  mapM f xs = Raise e -> exists x, In x xs /\ f x = Raise e.
Proof.
  induction xs as [|x xs IH]; cbn; [discriminate|].
  destruct (f x) as [y|e'] eqn:Hfx; cbn.
  - destruct (mapM f xs) as [ys|e'']; cbn; [discriminate|].
    intros [= ->]. destruct IH as [x' [Hin Hx']]; [reflexivity|].
    exists x'. split; [now right | assumption].
  - intros [= ->]. exists x. split; [now left | assumption].
Qed.

(** ** The monthly loop, for any arithmetic *)

Section Loop.
Context {num : Type} {A : Arith num}.
Local Open Scope num_scope.

Variables r_m frais_mensuel versement_mensuel : num.

Abbreviation step := (mois_step r_m frais_mensuel versement_mensuel).
Abbreviation loop := (boucle r_m frais_mensuel versement_mensuel).

Lemma boucle_nonpos (n : Z) (l : Locals num) : (n <= 0)%Z -> loop n l = l.
Proof. intros Hn. unfold boucle. rewrite range_empty by lia. reflexivity. Qed.

Lemma boucle_succ (n : Z) (l : Locals num) :
  (0 <= n)%Z -> loop (n + 1) l = step (loop n l) (n + 1)%Z.
Proof.
  intros Hn. unfold boucle.
  rewrite (range_snoc 1 (n + 1)) by lia. now rewrite fold_left_app.
Qed.

(** Each iteration appends exactly the capital it computed. *)
Lemma mois_step_historique (l : Locals num) (mois : Z) :
  l_historique (step l mois) = l_historique l ++ [l_capital (step l mois)].
Proof. unfold mois_step. now destruct (l_leftover l >? lit_1e_9). Qed.

Lemma mois_step_capital_no_deposit (l : Locals num) (mois : Z) :
  (l_leftover l >? lit_1e_9) = false ->
  step l mois =
    {| l_capital := capitalisation r_m frais_mensuel (l_capital l);
       l_net_investi := l_net_investi l;
       l_mois_plafond := l_mois_plafond l;
       l_leftover := l_leftover l;
       l_historique :=
         l_historique l ++ [capitalisation r_m frais_mensuel (l_capital l)] |}.
Proof. intros Hcap. unfold mois_step. now rewrite Hcap. Qed.

(** A month index already recorded is never overwritten. *)
Lemma mois_step_plafond_kept (l : Locals num) (mois m : Z) :
  l_mois_plafond l = Some m -> l_mois_plafond (step l mois) = Some m.
Proof.
  intros Hm. unfold mois_step.
  destruct (l_leftover l >? lit_1e_9); cbn; [|assumption].
  rewrite Hm. now destruct (_ <=? lit_1e_9).
Qed.

Lemma boucle_ind (P : Z -> Locals num -> Prop) (l : Locals num) :
  P 0%Z l ->
  (forall k lk, (0 <= k)%Z -> P k lk -> P (k + 1)%Z (step lk (k + 1)%Z)) ->
  forall n, (0 <= n)%Z -> P n (loop n l).
Proof.
  intros H0 Hstep n Hn. pattern n. apply natlike_ind; [| |assumption].
  - now rewrite boucle_nonpos by lia.
  - intros k Hk IH. unfold Z.succ. rewrite boucle_succ by assumption.
    now apply Hstep.
Qed.

Lemma boucle_plafond_kept (l : Locals num) (m n : Z) :
  l_mois_plafond l = Some m -> l_mois_plafond (loop n l) = Some m.
Proof.
  intros Hm. destruct (Z.le_gt_cases 0 n) as [Hn|Hn].
  - apply (boucle_ind (fun _ lk => l_mois_plafond lk = Some m)); auto.
    intros k lk _. apply mois_step_plafond_kept.
  - now rewrite boucle_nonpos by lia.
Qed.

Lemma boucle_historique_length (l : Locals num) (n : Z) :
  List.length (l_historique (loop n l))
  = (List.length (l_historique l) + Z.to_nat n)%nat.
Proof.
  destruct (Z.le_gt_cases 0 n) as [Hn|Hn].
  - apply (boucle_ind (fun k lk => List.length (l_historique lk)
             = (List.length (l_historique l) + Z.to_nat k)%nat)); auto.
    intros k lk Hk IH. rewrite mois_step_historique, length_app, IH. cbn. lia.
  - rewrite boucle_nonpos by lia. lia.
Qed.

(** The last entry of the history is the current capital. *)
Lemma boucle_last (l : Locals num) (n : Z) :
  list_last (l_historique l) = Ok (l_capital l) ->
  list_last (l_historique (loop n l)) = Ok (l_capital (loop n l)).
Proof.
  intros Hl. destruct (Z.le_gt_cases 0 n) as [Hn|Hn].
  - apply (boucle_ind (fun _ lk =>
             list_last (l_historique lk) = Ok (l_capital lk))); auto.
    intros k lk _ _. rewrite mois_step_historique. apply list_last_snoc.
  - now rewrite boucle_nonpos by lia.
Qed.

(** Later months only extend the history: entry [k] is the capital after
    month [k]. *)
Lemma boucle_historique_nth (l : Locals num) (k n : Z) :
  List.length (l_historique l) = 1%nat ->
  list_last (l_historique l) = Ok (l_capital l) ->
  (0 <= k <= n)%Z ->
  nth_error (l_historique (loop n l)) (Z.to_nat k) = Some (l_capital (loop k l)).
Proof.
  intros Hlen Hlast [Hk Hkn].
  assert (Hat : nth_error (l_historique (loop k l)) (Z.to_nat k)
                = Some (l_capital (loop k l))).
  { pose proof (boucle_last l k Hlast) as Hl.
    pose proof (boucle_historique_length l k) as Hn. rewrite Hlen in Hn.
    unfold list_last in Hl.
    destruct (rev (l_historique (loop k l))) as [|x xs] eqn:Hrev;
      [discriminate|].
    injection Hl as ->.
    apply (f_equal (@rev num)) in Hrev. rewrite rev_involutive in Hrev.
    cbn in Hrev. rewrite Hrev in Hn |- *.
    rewrite length_app in Hn. cbn in Hn.
    rewrite nth_error_app2 by lia.
    replace (Z.to_nat k - List.length (rev xs))%nat with 0%nat by lia.
    reflexivity. }
  replace n with (k + (n - k))%Z by lia.
  assert (Hd : (0 <= n - k)%Z) by lia. revert Hd.
  generalize (n - k)%Z as d. intros d Hd. pattern d.
  apply natlike_ind; [| |assumption].
  - now rewrite Z.add_0_r.
  - intros j Hj IH. unfold Z.succ. rewrite Z.add_assoc.
    rewrite boucle_succ by lia. rewrite mois_step_historique.
    rewrite nth_error_app1; [assumption|].
    rewrite boucle_historique_length, Hlen. lia.
Qed.
End Loop.

(** ** The engine and the comparator, for any arithmetic *)

Section Engine.
Context {num : Type} {A : Arith num}.
Local Open Scope num_scope.

Lemma depot_initial_historique (capital_initial plafond_pea : num) :
  l_historique (depot_initial capital_initial plafond_pea)
  = [l_capital (depot_initial capital_initial plafond_pea)].
Proof. unfold depot_initial. now destruct (plafond_pea >? lit_0). Qed.

Lemma depot_initial_last (capital_initial plafond_pea : num) :
  list_last (l_historique (depot_initial capital_initial plafond_pea))
  = Ok (l_capital (depot_initial capital_initial plafond_pea)).
Proof. now rewrite depot_initial_historique. Qed.

Lemma etat_mois_succ
    (taux capital_initial versement plafond frais inflation : num) (k : Z) :
  (0 <= k)%Z ->
  etat_mois taux capital_initial versement plafond frais inflation (k + 1)
  = mois_step (taux_mensuel taux inflation) (frais_mensuels frais) versement
      (etat_mois taux capital_initial versement plafond frais inflation k)
      (k + 1)%Z.
Proof. intros Hk. unfold etat_mois. now apply boucle_succ. Qed.

Lemma etat_mois_nonpos
    (taux capital_initial versement plafond frais inflation : num) (k : Z) :
  (k <= 0)%Z ->
  etat_mois taux capital_initial versement plafond frais inflation k
  = depot_initial capital_initial plafond.
Proof. intros Hk. unfold etat_mois. now apply boucle_nonpos. Qed.

Lemma etat_mois_last
    (taux capital_initial versement plafond frais inflation : num) (k : Z) :
  list_last (l_historique
    (etat_mois taux capital_initial versement plafond frais inflation k))
  = Ok (l_capital
    (etat_mois taux capital_initial versement plafond frais inflation k)).
Proof. unfold etat_mois. apply boucle_last, depot_initial_last. Qed.

Lemma etat_mois_historique_length
    (taux capital_initial versement plafond frais inflation : num) (k : Z) :
  List.length (l_historique
    (etat_mois taux capital_initial versement plafond frais inflation k))
  = S (Z.to_nat k).
Proof.
  unfold etat_mois.
  now rewrite boucle_historique_length, depot_initial_historique.
Qed.

(** [simulate_pea] raises exactly when [int(duree_annees * 12)] does, and
    otherwise returns the locals reached after [nb_mois] months. *)
Lemma simulate_pea_ok
    (duree taux capital_initial versement plafond frais taux_impot inflation : num)
    (nb_mois : Z) :
  num_int (duree * lit_12) = Ok nb_mois ->
  simulate_pea duree taux capital_initial versement plafond frais
    taux_impot inflation
  = let l := etat_mois taux capital_initial versement plafond frais
               inflation nb_mois in
    Ok {| capital_final_brut :=
            capital_net taux_impot (l_capital l) (l_net_investi l);
          net_investi := l_net_investi l;
          mois_plafond := l_mois_plafond l;
          historique := l_historique l |}.
Proof. intros Hint. unfold simulate_pea. now rewrite Hint. Qed.

Lemma simulate_pea_inv
    (duree taux capital_initial versement plafond frais taux_impot inflation : num)
    (r : SimulationResult num) :
  simulate_pea duree taux capital_initial versement plafond frais
    taux_impot inflation = Ok r ->
  exists nb_mois,
    num_int (duree * lit_12) = Ok nb_mois /\
    let l := etat_mois taux capital_initial versement plafond frais
               inflation nb_mois in
    r = {| capital_final_brut :=
             capital_net taux_impot (l_capital l) (l_net_investi l);
           net_investi := l_net_investi l;
           mois_plafond := l_mois_plafond l;
           historique := l_historique l |}.
Proof.
  unfold simulate_pea.
  destruct (num_int (duree * lit_12)) as [n|e]; cbn; [|discriminate].
  intros [= <-]. now exists n.
Qed.

Lemma simulate_pea_raises
    (duree taux capital_initial versement plafond frais taux_impot inflation : num)
    (e : exn) :
  simulate_pea duree taux capital_initial versement plafond frais
    taux_impot inflation = Raise e ->
  num_int (duree * lit_12) = Raise e.
Proof.
  unfold simulate_pea.
  destruct (num_int (duree * lit_12)) as [n|e']; cbn; [discriminate|].
  now intros [= ->].
Qed.

(** One month of [mois_step] is one month of the specification. *)
Lemma mois_step_spec_month
    (taux inflation frais versement : num) (l : Locals num) (m : Z) :
  spec_view (mois_step (taux_mensuel taux inflation) (frais_mensuels frais)
               versement l m)
  = spec_month taux inflation frais versement m (spec_view l).
Proof.
  unfold mois_step, spec_month, spec_view, capitalisation, taux_mensuel,
    frais_mensuels. cbn.
  destruct (l_leftover l >? lit_1e_9); cbn; [|reflexivity].
  destruct (_ <=? lit_1e_9); cbn; [|reflexivity].
  now destruct (l_mois_plafond l).
Qed.

(** What one comparator iteration returns, given the engine's run. *)
Lemma scenario_ok
    (duree capital_initial versement plafond frais inflation taux_impot taux : num)
    (nb_mois : Z) :
  num_int (duree * lit_12) = Ok nb_mois ->
  let l := etat_mois taux capital_initial versement plafond frais
             inflation nb_mois in
  scenario duree capital_initial versement plafond frais inflation
    taux_impot taux
  = Ok {| sc_taux := taux;
          sc_plafond_atteint :=
            match l_mois_plafond l with
            | Some m => format_duree_mois m
            | None => "non atteint"%string
            end;
          sc_capital_final_brut := l_capital l;
          sc_interets_bruts := interets_bruts (l_capital l) (l_net_investi l);
          sc_impots := impots taux_impot (l_capital l) (l_net_investi l);
          sc_capital_final_net :=
            capital_net taux_impot (l_capital l) (l_net_investi l);
          sc_historique := l_historique l |}.
Proof.
  intros Hint l. unfold scenario.
  rewrite (simulate_pea_ok _ _ _ _ _ _ _ _ _ Hint). cbn.
  fold l. unfold l at 1. rewrite etat_mois_last. cbn. reflexivity.
Qed.

Lemma scenario_raises
    (duree capital_initial versement plafond frais inflation taux_impot taux : num)
    (e : exn) :
  scenario duree capital_initial versement plafond frais inflation
    taux_impot taux = Raise e ->
  num_int (duree * lit_12) = Raise e.
Proof.
  destruct (num_int (duree * lit_12)) as [n|e'] eqn:Hint.
  - now rewrite (scenario_ok _ _ _ _ _ _ _ _ _ Hint).
  - unfold scenario, simulate_pea. rewrite Hint. cbn. now intros [= ->].
Qed.

Lemma calcul_scenarios_raises
    (duree capital_initial versement plafond frais inflation taux_impot : num)
    (rates : list num) (e : exn) :
  calcul_scenarios duree capital_initial versement plafond rates frais
    inflation taux_impot = Raise e ->
  num_int (duree * lit_12) = Raise e.
Proof.
  unfold calcul_scenarios.
  destruct (negb _); [discriminate|].
  destruct (mapM _ rates) as [ds|e'] eqn:Hmap; cbn; [discriminate|].
  intros [= ->]. apply mapM_raises in Hmap as [x [_ Hx]].
  now apply scenario_raises in Hx.
Qed.

Lemma simulate_pea_historique
    (duree taux capital_initial versement plafond frais taux_impot inflation : num)
    (r : SimulationResult num) :
  simulate_pea duree taux capital_initial versement plafond frais
    taux_impot inflation = Ok r ->
  historique r <> [] /\ exists x, list_last (historique r) = Ok x.
Proof.
  intros Hsim. apply simulate_pea_inv in Hsim as [n [_ ->]].
  cbn [historique]. split.
  - intros Hnil.
    pose proof (etat_mois_historique_length taux capital_initial
                  versement plafond frais inflation n) as Hl.
    rewrite Hnil in Hl. discriminate.
  - eexists. apply etat_mois_last.
Qed.
End Engine.

(** ** Properties that hold for any arithmetic *)

Section GenericProperties.
Context {num : Type} {A : Arith num}.
Local Open Scope num_scope.

Variables duree_annees capital_initial versement_mensuel plafond_pea : num.
Variables frais inflation taux_impot : num.

(** C1. For every month index [m] from 1 to the month count, the engine
    obtains the locals after month [m] from those after month [m - 1] by
    the specification's monthly step (growth by [1 + r_m], then the fee if
    the monthly fee fraction is positive, then the capped deposit with its
    bookkeeping and the cap-reached month), and entries [m - 1] and [m] of
    the returned history are the capital before and after that step. *)
Theorem monthly_step_refines_spec
    (taux : num) (r : SimulationResult num) (nb_mois m : Z) :
  simulate_pea duree_annees taux capital_initial versement_mensuel
    plafond_pea frais taux_impot inflation = Ok r ->
  num_int (duree_annees * lit_12) = Ok nb_mois ->
  (1 <= m <= nb_mois)%Z ->
  let prev := etat_mois taux capital_initial versement_mensuel plafond_pea
                frais inflation (m - 1) in
  let cur := etat_mois taux capital_initial versement_mensuel plafond_pea
               frais inflation m in
  spec_view cur = spec_month taux inflation frais versement_mensuel m (spec_view prev)
  /\ nth_error (historique r) (Z.to_nat (m - 1)) = Some (s_capital (spec_view prev))
  /\ nth_error (historique r) (Z.to_nat m)
     = Some (s_capital
               (spec_month taux inflation frais versement_mensuel m (spec_view prev))).
Proof.
  intros Hsim Hint Hm prev cur.
  rewrite (simulate_pea_ok _ _ _ _ _ _ _ _ _ Hint) in Hsim.
  cbv zeta in Hsim. injection Hsim as <-. cbn [historique].
  assert (Hcur : spec_view cur
                 = spec_month taux inflation frais versement_mensuel m
                     (spec_view prev)).
  { subst cur prev. replace m with (m - 1 + 1)%Z at 1 by lia.
    rewrite etat_mois_succ by lia. rewrite mois_step_spec_month.
    now replace (m - 1 + 1)%Z with m by lia. }
  split; [exact Hcur|].
  rewrite <- Hcur. subst cur prev. unfold etat_mois. cbn [spec_view s_capital].
  split; apply boucle_historique_nth;
    try (now rewrite depot_initial_historique);
    try apply depot_initial_last; lia.
Qed.

(** C5. In every scenario the comparator returns, the gross interest it
    recomputes from the last history entry equals the engine's own gross
    gains, and the last history entry minus the comparator's tax equals
    the engine's final capital after tax. *)
Theorem comparator_agrees_with_engine
    (rates : list num) (rapport : Rapport num) (data : list (Scenario num)) :
  calcul_scenarios duree_annees capital_initial versement_mensuel
    plafond_pea rates frais inflation taux_impot = Ok (rapport, data) ->
  List.length rates = 3%nat ->
  Forall2 (scenario_agrees duree_annees capital_initial versement_mensuel
             plafond_pea frais inflation taux_impot) rates data.
Proof.
  intros Hcalc Hlen. unfold calcul_scenarios in Hcalc.
  rewrite Hlen in Hcalc. cbn [Nat.eqb negb] in Hcalc.
  destruct (mapM _ rates) as [ds|e] eqn:Hmap; cbn in Hcalc; [|discriminate].
  injection Hcalc as _ <-.
  apply mapM_ok_length in Hmap.
  eapply Forall2_impl; [|exact Hmap].
  intros taux sc Hsc. cbv beta in Hsc. unfold scenario_agrees.
  destruct (num_int (duree_annees * lit_12)) as [n|e] eqn:Hint.
  - rewrite (scenario_ok _ _ _ _ _ _ _ _ _ Hint) in Hsc.
    cbv zeta in Hsc. injection Hsc as <-.
    eexists _, n, _.
    split; [apply (simulate_pea_ok _ _ _ _ _ _ _ _ _ Hint)|].
    cbn. split; [reflexivity|].
    split; [apply etat_mois_last|].
    repeat split; reflexivity.
  - unfold scenario, simulate_pea in Hsc. rewrite Hint in Hsc. discriminate.
Qed.

(** C8, amended. With a rate list whose length is not 3 the comparator
    returns the error message and an empty scenario list without raising
    (the engine is not even called); with exactly 3 rates and a duration
    that [int(duree_annees * 12)] accepts, it returns exactly 3
    scenarios, in the order of the rates supplied: scenario [i] is the
    one computed for rate [i] and carries that rate. *)
Theorem comparator_arity (rates : list num) :
  (List.length rates <> 3%nat ->
   calcul_scenarios duree_annees capital_initial versement_mensuel
     plafond_pea rates frais inflation taux_impot
   = Ok (Erreur "ERREUR : Veuillez renseigner exactement 3 taux.", []))
  /\ (List.length rates = 3%nat ->
      forall nb_mois, num_int (duree_annees * lit_12) = Ok nb_mois ->
      exists lines data,
        calcul_scenarios duree_annees capital_initial versement_mensuel
          plafond_pea rates frais inflation taux_impot
        = Ok (Comparatif lines, data)
        /\ List.length data = 3%nat
        /\ map (@sc_taux num) data = rates
        /\ Forall2
             (fun taux sc =>
                scenario duree_annees capital_initial versement_mensuel
                  plafond_pea frais inflation taux_impot taux = Ok sc)
             rates data).
Proof.
  split.
  - intros Hlen. unfold calcul_scenarios.
    destruct (Nat.eqb_spec (List.length rates) 3); [contradiction|reflexivity].
  - intros Hlen n Hint. unfold calcul_scenarios.
    rewrite Hlen. cbn [Nat.eqb negb].
    destruct (mapM_total
                (scenario duree_annees capital_initial versement_mensuel
                   plafond_pea frais inflation taux_impot) rates)
      as [data Hdata].
    { intros taux _. rewrite (scenario_ok _ _ _ _ _ _ _ _ _ Hint). now eexists. }
    rewrite Hdata. cbn. eexists _, data. split; [reflexivity|].
    apply mapM_ok_length in Hdata.
    split; [|split; [|exact Hdata]].
    + rewrite <- Hlen. symmetry. eapply Forall2_length; eassumption.
    + clear Hlen. induction Hdata as [|taux sc rs ds Hsc _ IH]; [reflexivity|].
      cbn. rewrite IH. f_equal.
      rewrite (scenario_ok _ _ _ _ _ _ _ _ _ Hint) in Hsc.
      now injection Hsc as <-.
Qed.
End GenericProperties.

(** The generic properties at work on the binary64 program. *)

Module GenericRuns.
Import Float64.
Import Floats.
Local Open Scope float_scope.

Lemma monthly_step_refines_spec_witness :
  exists r,
    simulate_pea (A := Float64.arith) 1 12 1000 100 100000 1 17.2 2 = Ok r
    /\ nth_error (historique r) (Z.to_nat 3%Z)
       = Some (s_capital
                 (spec_month (A := Float64.arith) 12 2 1 100 3%Z
                    (spec_view (etat_mois 12 1000 100 100000 1 2 (3 - 1)%Z)))).
Proof.
  eexists. split; [vm_compute; reflexivity|].
  apply (monthly_step_refines_spec (A := Float64.arith)
           1%float 1000%float 100%float 100000%float 1%float 2%float
           17.2%float 12%float _ 12%Z 3%Z);
    [vm_compute; reflexivity | vm_compute; reflexivity | lia].
Defined.

Lemma comparator_agrees_with_engine_witness :
  exists rapport data,
    calcul_scenarios (A := Float64.arith) 2 10000 1000 150000
      [6; 8; 10]%float 0.5 1 17.2 = Ok (rapport, data)
    /\ Forall2 (scenario_agrees (A := Float64.arith) 2 10000 1000 150000
                  0.5 1 17.2) [6; 8; 10]%float data.
Proof.
  destruct (calcul_scenarios (A := Float64.arith) 2 10000 1000 150000
              [6; 8; 10]%float 0.5 1 17.2) as [[rapport data]|e] eqn:Hcalc.
  - exists rapport, data. split; [reflexivity|].
    exact (comparator_agrees_with_engine (A := Float64.arith)
             2%float 10000%float 1000%float 150000%float 0.5%float 1%float
             17.2%float [6; 8; 10]%float rapport data Hcalc eq_refl).
  - vm_compute in Hcalc. discriminate.
Defined.

Lemma comparator_arity_witness :
  calcul_scenarios (A := Float64.arith) 2 10000 1000 150000
    [6; 8]%float 0.5 1 17.2
  = Ok (Erreur "ERREUR : Veuillez renseigner exactement 3 taux.", [])
  /\ exists lines data,
       calcul_scenarios (A := Float64.arith) 2 10000 1000 150000
         [6; 8; 10]%float 0.5 1 17.2 = Ok (Comparatif lines, data)
       /\ List.length data = 3%nat
       /\ map (@sc_taux float) data = [6; 8; 10]%float
       /\ Forall2
            (fun taux sc =>
               scenario (A := Float64.arith) 2 10000 1000 150000 0.5 1 17.2
                 taux = Ok sc)
            [6; 8; 10]%float data.
Proof.
  split.
  - apply (proj1 (comparator_arity (A := Float64.arith) 2%float 10000%float
                    1000%float 150000%float 0.5%float 1%float 17.2%float
                    [6; 8]%float)).
    discriminate.
  - apply (proj2 (comparator_arity (A := Float64.arith) 2%float 10000%float
                    1000%float 150000%float 0.5%float 1%float 17.2%float
                    [6; 8; 10]%float) eq_refl 24%Z).
    vm_compute. reflexivity.
Defined.

(** C8 as stated fails on three rates when [int()] rejects the duration:
    the product [1e308 * 12] overflows to infinity and the comparator
    raises instead of returning three scenarios. *)
Lemma three_rates_can_raise :
  List.length [6; 8; 10] = 3%nat
  /\ calcul_scenarios (A := Float64.arith) 1e308 10000 1000 150000
       [6; 8; 10] 0 0 17.2 = Raise OverflowError.
Proof. split; vm_compute; reflexivity. Qed.
End GenericRuns.

(** ** Rounding to binary64

    The IEEE specification of the standard library ([SpecFloat]) defines
    the operations by rounding an exact result; these lemmas say what the
    rounding does to the sign and to the order of values. *)

Module Rounding64.
Import Floats.
Import Float64.

(** Rounding never changes the sign it is given. *)
Lemma binary_round_aux_sign (sx : bool) (mx ex : Z) (lx : location) :
  let r := binary_round_aux prec emax sx mx ex lx in
  r = S754_nan \/ r = S754_zero sx \/ r = S754_infinity sx
  \/ exists m e, r = S754_finite sx m e.
Proof.
  unfold binary_round_aux.
  destruct (shr_fexp prec emax mx ex lx) as [mrs' e'].
  destruct (shr_fexp prec emax _ e' loc_Exact) as [mrs'' e''].
  destruct (shr_m mrs'') as [|m|m]; auto.
  destruct (e'' <=? emax - prec)%Z; eauto 6.
Qed.

Lemma digits2_pos_bounds (p : positive) :
  2 ^ (Z.pos (digits2_pos p) - 1) <= Z.pos p < 2 ^ Z.pos (digits2_pos p).
Proof.
  induction p as [p IH|p IH|]; cbn [digits2_pos].
  - rewrite Pos2Z.inj_succ.
    replace (Z.succ (Z.pos (digits2_pos p)) - 1) with (Z.succ (Z.pos (digits2_pos p) - 1)) by lia.
    rewrite !Z.pow_succ_r by lia. lia.
  - rewrite Pos2Z.inj_succ.
    replace (Z.succ (Z.pos (digits2_pos p)) - 1) with (Z.succ (Z.pos (digits2_pos p) - 1)) by lia.
    rewrite !Z.pow_succ_r by lia. lia.
  - cbn. lia.
Qed.

Lemma iter_pos_invariant {A : Type} (f : A -> A) (I : Z -> A -> Prop) :
  (forall k x, 0 <= k -> I k x -> I (k + 1) (f x)) ->
  forall p k x, 0 <= k -> I k x -> I (k + Z.pos p) (iter_pos f p x).
Proof.
  intros Hstep. induction p as [p IH|p IH|]; intros k x Hk Hx; cbn [iter_pos].
  - replace (k + Z.pos p~1) with (k + 1 + Z.pos p + Z.pos p) by lia.
    apply IH; [lia|]. apply IH; [lia|]. now apply Hstep.
  - replace (k + Z.pos p~0) with (k + Z.pos p + Z.pos p) by lia.
    apply IH; [lia|]. now apply IH.
  - now apply Hstep.
Qed.

Lemma shr_1_m (mrs : shr_record) :
  0 <= shr_m mrs -> shr_m (shr_1 mrs) = shr_m mrs / 2
  /\ (shr_r (shr_1 mrs) = false <-> shr_m mrs mod 2 = 0)
  /\ shr_s (shr_1 mrs) = shr_r mrs || shr_s mrs.
Proof.
  destruct mrs as [m r s]. cbn [shr_m]. intros Hm.
  destruct m as [|[p|p|]|p]; cbn [shr_1 shr_m shr_r shr_s]; try lia.
  - split; [reflexivity|]. split; [|reflexivity]. split; reflexivity.
  - assert (Hd : Z.pos p~1 / 2 = Z.pos p)
      by (symmetry; apply Z.div_unique with 1; lia).
    assert (Hr : Z.pos p~1 mod 2 = 1)
      by (symmetry; apply Z.mod_unique with (Z.pos p); lia).
    rewrite Hd, Hr. split; [reflexivity|]. split; [|reflexivity].
    split; discriminate.
  - assert (Hd : Z.pos p~0 / 2 = Z.pos p)
      by (symmetry; apply Z.div_unique with 0; lia).
    assert (Hr : Z.pos p~0 mod 2 = 0)
      by (symmetry; apply Z.mod_unique with (Z.pos p); lia).
    rewrite Hd, Hr. split; [reflexivity|]. split; [|reflexivity].
    split; reflexivity.
  - split; [reflexivity|]. split; [|reflexivity]. split; discriminate.
Qed.

Lemma shr_1_inv (M k : Z) (mrs : shr_record) :
  0 <= M -> 0 <= k -> shr_inv M k mrs -> shr_inv M (k + 1) (shr_1 mrs).
Proof.
  intros HM Hk [Hm Hex].
  assert (Hpos : 0 < 2 ^ k) by (apply Z.pow_pos_nonneg; lia).
  assert (Hm0 : 0 <= shr_m mrs) by (rewrite Hm; apply Z.div_pos; lia).
  destruct (shr_1_m mrs Hm0) as [H1 [H2 H3]].
  assert (Hpow : 2 ^ (k + 1) = 2 ^ k * 2) by (rewrite Z.pow_add_r by lia; reflexivity).
  split.
  - rewrite H1, Hm, Hpow. rewrite Z.div_div by lia. reflexivity.
  - intros Hmod. rewrite Hpow in Hmod.
    rewrite Z.rem_mul_r in Hmod by lia.
    assert (0 <= M mod 2 ^ k < 2 ^ k) by (apply Z.mod_pos_bound; lia).
    assert (0 <= (M / 2 ^ k) mod 2 < 2) by (apply Z.mod_pos_bound; lia).
    assert (M mod 2 ^ k = 0) by nia.
    assert ((M / 2 ^ k) mod 2 = 0) by nia.
    destruct (Hex H4) as [Hr Hs].
    split.
    + apply H2. now rewrite Hm.
    + rewrite H3, Hr, Hs. reflexivity.
Qed.

Lemma shr_spec (M : Z) (e n : Z) :
  0 <= M -> 0 <= n ->
  let '(mrs, e') := shr (shr_record_of_loc M loc_Exact) e n in
  e' = e + n /\ shr_inv M n mrs.
Proof.
  intros HM Hn. unfold shr.
  destruct n as [|p|p]; try lia.
  - split; [lia|]. cbn. split; [now rewrite Z.div_1_r|auto].
  - split; [reflexivity|].
    change (Z.pos p) with (0 + Z.pos p).
    apply (iter_pos_invariant shr_1 (shr_inv M)); [|lia|].
    + intros k x Hk. now apply shr_1_inv.
    + cbn. split; [now rewrite Z.div_1_r|auto].
Qed.

Lemma round_nearest_even_bounds (m : Z) (mrs : shr_record) :
  let m' := round_nearest_even m (loc_of_shr_record mrs) in
  m <= m' <= m + 1 /\ (shr_r mrs = false /\ shr_s mrs = false -> m' = m).
Proof.
  destruct mrs as [x [|] [|]]; cbn; try (split; [lia|intros [? ?]; congruence]).
  destruct (Z.even m); split; try lia; intros [? ?]; congruence.
Qed.

Lemma digits2_pos_le (p : positive) (k : Z) :
  Z.pos p < 2 ^ k -> Z.pos (digits2_pos p) <= k.
Proof.
  intros Hp. destruct (digits2_pos_bounds p) as [Hlo _].
  destruct (Z.le_gt_cases (Z.pos (digits2_pos p)) k) as [|Hgt]; [assumption|].
  assert (2 ^ k <= 2 ^ (Z.pos (digits2_pos p) - 1)) by (apply Z.pow_le_mono_r; lia).
  lia.
Qed.

Lemma div_pow2_lt (M d n : Z) :
  0 <= M < 2 ^ d -> 0 <= n -> 0 <= d -> d - 53 <= n -> M / 2 ^ n < 2 ^ 53.
Proof.
  intros [HM0 HM] Hn Hd Hdn.
  assert (0 < 2 ^ n) by (apply Z.pow_pos_nonneg; lia).
  apply Z.div_lt_upper_bound; [assumption|].
  rewrite <- Z.pow_add_r by lia.
  assert (2 ^ d <= 2 ^ (n + 53)) by (apply Z.pow_le_mono_r; lia). lia.
Qed.

(** What [binary_round_aux] returns on an exact positive mantissa [mz] at
    an exponent [ez] not above the canonical one. *)
Lemma binary_round_aux_exact (s : bool) (mz : positive) (ez : Z) :
  let e1 := fexp prec emax (Z.pos (digits2_pos mz) + ez) in
  let n := e1 - ez in
  0 <= n ->
  exists m2,
    Z.pos mz / 2 ^ n <= m2 <= Z.pos mz / 2 ^ n + 1
    /\ (Z.pos mz mod 2 ^ n = 0 -> m2 = Z.pos mz / 2 ^ n)
    /\ ((m2 = 0 /\ binary_round_aux prec emax s (Z.pos mz) ez loc_Exact = S754_zero s)
        \/ (exists p, m2 = Z.pos p /\ m2 < 2 ^ 53
            /\ binary_round_aux prec emax s (Z.pos mz) ez loc_Exact
               = if e1 <=? 971 then S754_finite s p e1 else S754_infinity s)
        \/ (m2 = 2 ^ 53
            /\ binary_round_aux prec emax s (Z.pos mz) ez loc_Exact
               = if e1 + 1 <=? 971 then S754_finite s 4503599627370496 (e1 + 1)
                 else S754_infinity s)).
Proof.
  intros e1 n Hn.
  remember (binary_round_aux prec emax s (Z.pos mz) ez loc_Exact) as R eqn:HR.
  unfold binary_round_aux in HR.
  unfold shr_fexp at 1 in HR. cbn [Zdigits2] in HR. fold e1 in HR. fold n in HR.
  pose proof (shr_spec (Z.pos mz) ez n ltac:(lia) Hn) as Hshr.
  destruct (shr (shr_record_of_loc (Z.pos mz) loc_Exact) ez n) as [mrs' e'].
  cbv beta iota in HR.
  destruct Hshr as [He' [Hm1 Hex]].
  pose proof (round_nearest_even_bounds (shr_m mrs') mrs') as Hrnd.
  cbv zeta in Hrnd.
  set (m2 := round_nearest_even (shr_m mrs') (loc_of_shr_record mrs')) in *.
  destruct Hrnd as [Hb Hexact].
  assert (He1 : e' = e1) by (subst n; lia). clear He'. subst e'.
  assert (Hm1lt : shr_m mrs' < 2 ^ 53).
  { rewrite Hm1. apply div_pow2_lt with (Z.pos (digits2_pos mz)); try lia.
    - pose proof (digits2_pos_bounds mz). lia.
    - subst n e1. unfold fexp, emin, prec, emax. lia. }
  assert (Hm1nn : 0 <= shr_m mrs').
  { rewrite Hm1. apply Z.div_pos; [lia|]. apply Z.pow_pos_nonneg; lia. }
  exists m2. rewrite <- Hm1. split; [exact Hb|]. split; [intros Hmod; apply Hexact; auto|].
  assert (He1min : -1074 <= e1) by (subst e1; unfold fexp, emin, prec, emax; lia).
  clearbody m2. clearbody e1.
  destruct (Z.eq_dec m2 0) as [Hz|Hnz].
  - left. split; [assumption|]. subst m2. unfold shr_fexp, shr in HR.
    cbn [Zdigits2] in HR.
    destruct (fexp prec emax (0 + e1) - e1) eqn:Hn2; try exact HR.
    unfold fexp, emin, prec, emax in Hn2. lia.
  - destruct (Z.eq_dec m2 (2 ^ 53)) as [Hmax|Hnmax].
    + right. right. split; [assumption|]. subst m2.
      change (2 ^ 53) with 9007199254740992 in HR.
      unfold shr_fexp, shr in HR.
      cbn [Zdigits2 digits2_pos Pos.succ shr_record_of_loc] in HR.
      replace (fexp prec emax (54 + e1) - e1) with 1 in HR
        by (unfold fexp, emin, prec, emax; lia).
      cbn [iter_pos shr_1 shr_m] in HR. exact HR.
    + right. left. destruct m2 as [|p|p]; try lia.
      exists p. split; [reflexivity|]. split; [lia|].
      unfold shr_fexp, shr in HR. cbn [Zdigits2 shr_record_of_loc] in HR.
      assert (Hd : Z.pos (digits2_pos p) <= 53) by (apply digits2_pos_le; lia).
      destruct (fexp prec emax (Z.pos (digits2_pos p) + e1) - e1) eqn:Hn2;
        try exact HR.
      unfold fexp, emin, prec, emax in Hn2. lia.
Qed.

Lemma iter_xO_spec (m d : positive) :
  Z.pos (Pos.iter xO m d) = Z.pos m * 2 ^ Z.pos d
  /\ Z.pos (digits2_pos (Pos.iter xO m d)) = Z.pos (digits2_pos m) + Z.pos d.
Proof.
  induction d as [|d IH] using Pos.peano_ind.
  - cbn [Pos.iter digits2_pos]. rewrite Pos2Z.inj_xO, Pos2Z.inj_succ.
    change (2 ^ 1) with 2. lia.
  - rewrite Pos.iter_succ. cbn [digits2_pos].
    rewrite Pos2Z.inj_xO, !Pos2Z.inj_succ. destruct IH as [IH1 IH2].
    rewrite IH1, IH2. rewrite Z.pow_succ_r by lia. lia.
Qed.

Lemma shl_align_fexp_spec (d : positive) (ez : Z) :
  let '(mz, ez') :=
    shl_align d ez (fexp prec emax (Z.pos (digits2_pos d) + ez)) in
  ez' <= ez
  /\ Z.pos mz = Z.pos d * 2 ^ (ez - ez')
  /\ ez' <= fexp prec emax (Z.pos (digits2_pos mz) + ez')
  /\ (-1074 <= ez -> -1074 <= ez').
Proof.
  unfold shl_align.
  destruct (fexp prec emax (Z.pos (digits2_pos d) + ez) - ez) as [|p|p] eqn:Hd.
  - rewrite Z.sub_diag. change (2 ^ 0) with 1. repeat split; lia.
  - rewrite Z.sub_diag. change (2 ^ 0) with 1. repeat split; lia.
  - destruct (iter_xO_spec d p) as [Hv Hdig].
    assert (He : ez - fexp prec emax (Z.pos (digits2_pos d) + ez) = Z.pos p) by lia.
    rewrite He, Hdig. split; [lia|]. split; [exact Hv|]. split.
    + replace (Z.pos (digits2_pos d) + Z.pos p
               + fexp prec emax (Z.pos (digits2_pos d) + ez))
        with (Z.pos (digits2_pos d) + ez) by lia. lia.
    + intros _. unfold fexp, emin, prec, emax. lia.
Qed.

Lemma bounded_inv (m : positive) (e : Z) :
  bounded prec emax m e = true ->
  fexp prec emax (Z.pos (digits2_pos m) + e) = e /\ e <= 971
  /\ -1074 <= e /\ Z.pos m < 2 ^ 53.
Proof.
  unfold bounded, canonical_mantissa. intros H.
  apply andb_true_iff in H as [Hc Hb].
  apply Z.eqb_eq in Hc. apply Z.leb_le in Hb.
  change (emax - prec) with 971 in Hb.
  split; [assumption|]. split; [assumption|].
  assert (Hd : Z.pos (digits2_pos m) <= 53 /\ -1074 <= e)
    by (unfold fexp, emin, prec, emax in Hc; lia).
  split; [lia|].
  destruct (digits2_pos_bounds m) as [_ Hhi].
  assert (2 ^ Z.pos (digits2_pos m) <= 2 ^ 53) by (apply Z.pow_le_mono_r; lia).
  lia.
Qed.

Lemma pow2_split (a b : Z) : 0 <= a -> 0 <= b -> 2 ^ (a + b) = 2 ^ a * 2 ^ b.
Proof. intros. now apply Z.pow_add_r. Qed.

Lemma pow2_pos (a : Z) : 0 <= a -> 0 < 2 ^ a.
Proof. intros. apply Z.pow_pos_nonneg; lia. Qed.

(** Magnitude order gives digit order. *)
Lemma scaled_le_digits (m1 : positive) (e1 : Z) (m2 : positive) (e2 : Z) :
  -1074 <= e1 -> -1074 <= e2 ->
  scaled m1 e1 <= scaled m2 e2 ->
  Z.pos (digits2_pos m1) + e1 <= Z.pos (digits2_pos m2) + e2.
Proof.
  unfold scaled. intros H1 H2 Hle.
  destruct (digits2_pos_bounds m1) as [Hlo _].
  destruct (digits2_pos_bounds m2) as [_ Hhi].
  pose proof (pow2_pos (e1 + 1074) ltac:(lia)) as P1.
  pose proof (pow2_pos (e2 + 1074) ltac:(lia)) as P2.
  assert (Ha : 2 ^ (Z.pos (digits2_pos m1) - 1 + (e1 + 1074)) <= Z.pos m1 * 2 ^ (e1 + 1074)).
  { rewrite (pow2_split (Z.pos (digits2_pos m1) - 1) (e1 + 1074)) by lia.
    apply Z.mul_le_mono_nonneg_r; lia. }
  assert (Hb : Z.pos m2 * 2 ^ (e2 + 1074) < 2 ^ (Z.pos (digits2_pos m2) + (e2 + 1074))).
  { rewrite (pow2_split (Z.pos (digits2_pos m2)) (e2 + 1074)) by lia.
    apply Z.mul_lt_mono_pos_r; lia. }
  assert (Hc : 2 ^ (Z.pos (digits2_pos m1) - 1 + (e1 + 1074))
               < 2 ^ (Z.pos (digits2_pos m2) + (e2 + 1074))) by lia.
  apply Z.pow_lt_mono_r_iff in Hc; lia.
Qed.

(** On canonical floats the order of [SFcompare] is the order of values. *)
Lemma canonical_le (m1 : positive) (e1 : Z) (m2 : positive) (e2 : Z) :
  bounded prec emax m1 e1 = true -> bounded prec emax m2 e2 = true ->
  scaled m1 e1 <= scaled m2 e2 ->
  e1 < e2 \/ (e1 = e2 /\ (m1 <= m2)%positive).
Proof.
  intros B1 B2 Hle.
  destruct (bounded_inv _ _ B1) as [C1 [_ [L1 M1]]].
  destruct (bounded_inv _ _ B2) as [C2 [_ [L2 M2]]].
  pose proof (scaled_le_digits _ _ _ _ L1 L2 Hle) as Hd.
  assert (He : e1 <= e2) by (unfold fexp, emin, prec, emax in C1, C2; lia).
  destruct (Z.eq_dec e1 e2) as [->|Hne]; [right|left; lia].
  split; [reflexivity|]. unfold scaled in Hle.
  pose proof (pow2_pos (e2 + 1074) ltac:(lia)).
  apply Z.mul_le_mono_pos_r in Hle; [|assumption]. lia.
Qed.

(** The common set-up of the two rounding lemmas: after alignment the
    mantissa is [X] at exponent [ez'], the canonical exponent is [e1], and
    the value is [X * P] with one unit at [e1] worth [Qn * P]. *)
Lemma binary_round_cases (s : bool) (d : positive) (ez : Z) :
  -1074 <= ez ->
  exists e1 n X m2,
    -1074 <= e1 /\ 0 <= n /\ 0 < X
    /\ scaled d ez = X * 2 ^ (e1 + 1074 - n)
    /\ 0 <= e1 + 1074 - n
    /\ (exists mz, X = Z.pos mz
          /\ e1 = fexp prec emax (Z.pos (digits2_pos mz) + (e1 - n)))
    /\ X / 2 ^ n <= m2 <= X / 2 ^ n + 1
    /\ (X mod 2 ^ n = 0 -> m2 = X / 2 ^ n)
    /\ ((m2 = 0 /\ binary_round prec emax s d ez = S754_zero s)
        \/ (exists p, m2 = Z.pos p /\ m2 < 2 ^ 53
            /\ binary_round prec emax s d ez
               = if e1 <=? 971 then S754_finite s p e1 else S754_infinity s)
        \/ (m2 = 2 ^ 53
            /\ binary_round prec emax s d ez
               = if e1 + 1 <=? 971 then S754_finite s 4503599627370496 (e1 + 1)
                 else S754_infinity s)).
Proof.
  intros Hez. unfold binary_round.
  pose proof (shl_align_fexp_spec d ez) as Hal.
  destruct (shl_align d ez (fexp prec emax (Z.pos (digits2_pos d) + ez)))
    as [mz ez'].
  destruct Hal as [Hle [Hval [Hn Hmin]]]. specialize (Hmin Hez).
  pose proof (binary_round_aux_exact s mz ez') as Haux. cbv zeta in Haux.
  specialize (Haux ltac:(lia)).
  destruct Haux as [m2 [Hb [Hex Hcases]]].
  exists (fexp prec emax (Z.pos (digits2_pos mz) + ez')),
         (fexp prec emax (Z.pos (digits2_pos mz) + ez') - ez'),
         (Z.pos mz), m2.
  set (e1 := fexp prec emax (Z.pos (digits2_pos mz) + ez')) in *.
  replace (e1 + 1074 - (e1 - ez')) with (ez' + 1074) by lia.
  replace (e1 - (e1 - ez')) with ez' by lia.
  split; [subst e1; unfold fexp, emin, prec, emax; lia|].
  split; [lia|]. split; [lia|]. split.
  { unfold scaled. rewrite Hval.
    replace (ez + 1074) with ((ez - ez') + (ez' + 1074)) by lia.
    rewrite pow2_split by lia. ring. }
  split; [lia|]. split; [exists mz; split; reflexivity|].
  split; [exact Hb|]. split; [exact Hex|exact Hcases].
Qed.

Lemma binary_round_upper (s : bool) (d : positive) (ez : Z)
    (mc : positive) (ec : Z) :
  -1074 <= ez -> bounded prec emax mc ec = true ->
  scaled d ez <= scaled mc ec ->
  binary_round prec emax s d ez = S754_zero s
  \/ exists m' e',
       binary_round prec emax s d ez = S754_finite s m' e'
       /\ -1074 <= e' /\ scaled m' e' <= scaled mc ec.
Proof.
  intros Hez Hbc Hle.
  destruct (bounded_inv _ _ Hbc) as [Hcan [Hec [Hec' Hmc]]].
  destruct (binary_round_cases s d ez Hez)
    as [e1 [n [X [m2 [He1 [Hn [HX [Hval [Hez' [[mz [HXz Hcan1]] [Hb [Hex Hcases]]]]]]]]]]]].
  set (P := 2 ^ (e1 + 1074 - n)) in *.
  assert (HP : 0 < P) by (apply pow2_pos; lia).
  assert (HQ : 0 < 2 ^ n) by (apply pow2_pos; lia).
  assert (Hunit : 2 ^ (e1 + 1074) = 2 ^ n * P).
  { unfold P. rewrite <- pow2_split by lia. f_equal. lia. }
  (* the canonical exponent of the exact value is at most the one of [c] *)
  assert (He1c : e1 <= ec).
  { assert (Hd : Z.pos (digits2_pos mz) + (e1 - n) <= Z.pos (digits2_pos mc) + ec).
    { apply scaled_le_digits; try lia.
      unfold scaled at 1. rewrite <- HXz.
      replace (e1 - n + 1074) with (e1 + 1074 - n) by lia. fold P. lia. }
    unfold fexp, emin, prec, emax in Hcan1, Hcan. lia. }
  set (S := 2 ^ (ec - e1)).
  assert (HS : 0 < S) by (apply pow2_pos; lia).
  assert (Hc : scaled mc ec = (Z.pos mc * S) * (2 ^ n * P)).
  { unfold scaled. replace (ec + 1074) with ((ec - e1) + (e1 + 1074)) by lia.
    rewrite pow2_split by lia. rewrite Hunit. fold S. ring. }
  set (K := Z.pos mc * S) in *.
  assert (HXK : X <= 2 ^ n * K).
  { rewrite Hval, Hc in Hle.
    apply Z.mul_le_mono_pos_r with P; [assumption|]. lia. }
  assert (Hm2K : m2 <= K).
  { assert (Hm1 : X / 2 ^ n <= K) by (apply Z.div_le_upper_bound; lia).
    destruct (Z.eq_dec (X mod 2 ^ n) 0) as [Hz|Hnz]; [rewrite (Hex Hz); lia|].
    assert (X / 2 ^ n < K); [|lia].
    apply Z.div_lt_upper_bound; [assumption|].
    pose proof (Z.div_mod X (2 ^ n) ltac:(lia)).
    pose proof (Z.mod_pos_bound X (2 ^ n) HQ).
    destruct (Z.eq_dec X (2 ^ n * K)) as [Heq|]; [|lia].
    exfalso. apply Hnz. rewrite Heq, Z.mul_comm. apply Z.mod_mul. lia. }
  destruct Hcases as [[Hz HR]|[[p [Hp [Hlt HR]]]|[Hmax HR]]].
  - left. exact HR.
  - right. exists p, e1. replace (e1 <=? 971) with true in HR
      by (symmetry; apply Z.leb_le; lia).
    split; [exact HR|]. split; [lia|].
    rewrite Hc. unfold scaled. rewrite Hunit, <- Hp.
    apply Z.mul_le_mono_nonneg_r; [nia|lia].
  - right. exists 4503599627370496%positive, (e1 + 1).
    assert (He1' : e1 + 1 <= ec).
    { destruct (Z.eq_dec ec e1) as [Heq|]; [|lia].
      exfalso. unfold K, S in Hm2K. rewrite Heq, Z.sub_diag in Hm2K.
      change (2 ^ 0) with 1 in Hm2K. lia. }
    replace (e1 + 1 <=? 971) with true in HR by (symmetry; apply Z.leb_le; lia).
    split; [exact HR|]. split; [lia|].
    rewrite Hc. unfold scaled.
    replace (e1 + 1 + 1074) with (1 + (e1 + 1074)) by lia.
    rewrite pow2_split by lia. rewrite Hunit.
    change (Z.pos 4503599627370496 * (2 ^ 1 * (2 ^ n * P)))
      with (4503599627370496 * (2 * (2 ^ n * P))).
    replace (4503599627370496 * (2 * (2 ^ n * P))) with (2 ^ 53 * (2 ^ n * P))
      by (change (2 ^ 53) with 9007199254740992; ring).
    rewrite <- Hmax. apply Z.mul_le_mono_nonneg_r; [nia|lia].
Qed.

Lemma binary_round_lower (s : bool) (d : positive) (ez : Z)
    (mc : positive) (ec : Z) :
  -1074 <= ez -> bounded prec emax mc ec = true ->
  scaled mc ec <= scaled d ez ->
  binary_round prec emax s d ez = S754_infinity s
  \/ exists m' e',
       binary_round prec emax s d ez = S754_finite s m' e'
       /\ -1074 <= e' /\ scaled mc ec <= scaled m' e'.
Proof.
  intros Hez Hbc Hle.
  destruct (bounded_inv _ _ Hbc) as [Hcan [Hec [Hec' Hmc]]].
  destruct (binary_round_cases s d ez Hez)
    as [e1 [n [X [m2 [He1 [Hn [HX [Hval [Hez' [[mz [HXz Hcan1]] [Hb [Hex Hcases]]]]]]]]]]]].
  set (P := 2 ^ (e1 + 1074 - n)) in *.
  assert (HP : 0 < P) by (apply pow2_pos; lia).
  assert (HQ : 0 < 2 ^ n) by (apply pow2_pos; lia).
  assert (Hunit : 2 ^ (e1 + 1074) = 2 ^ n * P).
  { unfold P. rewrite <- pow2_split by lia. f_equal. lia. }
  assert (Hcpos : 0 < scaled mc ec).
  { unfold scaled. apply Z.mul_pos_pos; [lia|]. apply pow2_pos. lia. }
  (* the rounded mantissa, at the canonical exponent, is not below [c] *)
  assert (Hm2 : scaled mc ec <= m2 * (2 ^ n * P)).
  { assert (Hm1 : scaled mc ec <= (X / 2 ^ n) * (2 ^ n * P));
      [|apply Z.le_trans with (1 := Hm1); apply Z.mul_le_mono_nonneg_r; nia].
    destruct (Z.le_gt_cases e1 ec) as [Hec1|Hec1].
    - set (S := 2 ^ (ec - e1)).
      assert (HS : 0 < S) by (apply pow2_pos; lia).
      assert (Hc : scaled mc ec = (Z.pos mc * S) * (2 ^ n * P)).
      { unfold scaled. replace (ec + 1074) with ((ec - e1) + (e1 + 1074)) by lia.
        rewrite pow2_split by lia. rewrite Hunit. fold S. ring. }
      rewrite Hc. apply Z.mul_le_mono_nonneg_r; [nia|].
      apply Z.div_le_lower_bound; [assumption|].
      rewrite Hval, Hc in Hle.
      apply Z.mul_le_mono_pos_r with P; [assumption|]. lia.
    - assert (Hn53 : n = Z.pos (digits2_pos mz) - 53)
        by (unfold fexp, emin, prec, emax in Hcan1; lia).
      assert (H52 : 2 ^ 52 <= X / 2 ^ n).
      { apply Z.div_le_lower_bound; [assumption|].
        destruct (digits2_pos_bounds mz) as [Hlo _]. rewrite HXz.
        replace (Z.pos (digits2_pos mz) - 1) with (n + 52) in Hlo by lia.
        rewrite pow2_split in Hlo by lia. lia. }
      assert (Hclt : scaled mc ec < 2 ^ 52 * (2 ^ n * P)).
      { unfold scaled. rewrite <- Hunit.
        replace (e1 + 1074) with ((e1 - 1 - ec) + 1 + (ec + 1074)) by lia.
        rewrite (pow2_split (e1 - 1 - ec + 1) (ec + 1074)) by lia.
        rewrite (pow2_split (e1 - 1 - ec) 1) by lia.
        pose proof (pow2_pos (e1 - 1 - ec) ltac:(lia)).
        pose proof (pow2_pos (ec + 1074) ltac:(lia)).
        change (2 ^ 1) with 2. change (2 ^ 52) with 4503599627370496.
        change (2 ^ 53) with 9007199254740992 in Hmc. nia. }
      apply Z.lt_le_incl. apply Z.lt_le_trans with (1 := Hclt).
      apply Z.mul_le_mono_nonneg_r; [nia|lia]. }
  destruct Hcases as [[Hz HR]|[[p [Hp [Hlt HR]]]|[Hmax HR]]].
  - exfalso. rewrite Hz in Hm2. lia.
  - destruct (e1 <=? 971); [right|left; exact HR].
    exists p, e1. split; [exact HR|]. split; [lia|].
    unfold scaled at 2. rewrite Hunit, <- Hp. exact Hm2.
  - destruct (e1 + 1 <=? 971); [right|left; exact HR].
    exists 4503599627370496%positive, (e1 + 1).
    split; [exact HR|]. split; [lia|].
    unfold scaled at 2.
    replace (e1 + 1 + 1074) with (1 + (e1 + 1074)) by lia.
    rewrite pow2_split by lia. rewrite Hunit.
    change (Z.pos 4503599627370496 * (2 ^ 1 * (2 ^ n * P)))
      with (4503599627370496 * (2 * (2 ^ n * P))).
    replace (4503599627370496 * (2 * (2 ^ n * P))) with (2 ^ 53 * (2 ^ n * P))
      by (change (2 ^ 53) with 9007199254740992; ring).
    rewrite <- Hmax. exact Hm2.
Qed.

Lemma shl_align_fst (m : positive) (e ez : Z) :
  ez <= e -> Z.pos (fst (shl_align m e ez)) = Z.pos m * 2 ^ (e - ez).
Proof.
  intros Hle. unfold shl_align.
  destruct (ez - e) as [|p|p] eqn:Hd; cbn [fst]; try lia.
  - replace (e - ez) with 0 by lia. change (2 ^ 0) with 1. lia.
  - destruct (iter_xO_spec m p) as [Hv _]. rewrite Hv.
    replace (e - ez) with (Z.pos p) by lia. reflexivity.
Qed.

Lemma scaled_shl_align (m : positive) (e ez : Z) :
  -1074 <= ez -> ez <= e ->
  Z.pos (fst (shl_align m e ez)) * 2 ^ (ez + 1074) = scaled m e.
Proof.
  intros Hez Hle. rewrite shl_align_fst by assumption. unfold scaled.
  replace (e + 1074) with ((e - ez) + (ez + 1074)) by lia.
  rewrite (pow2_split (e - ez) (ez + 1074)) by lia. ring.
Qed.

Lemma binary_round_sign (s : bool) (d : positive) (e : Z) :
  let r := binary_round prec emax s d e in
  r = S754_nan \/ r = S754_zero s \/ r = S754_infinity s
  \/ exists m' e', r = S754_finite s m' e'.
Proof.
  unfold binary_round.
  destruct (shl_align d e (fexp prec emax (Z.pos (digits2_pos d) + e))) as [mz ez].
  apply binary_round_aux_sign.
Qed.

Lemma SFleb_finite_le (s : bool) (m1 : positive) (e1 : Z) (m2 : positive) (e2 : Z) :
  (if s then e2 < e1 \/ (e2 = e1 /\ (m2 <= m1)%positive)
   else e1 < e2 \/ (e1 = e2 /\ (m1 <= m2)%positive)) ->
  SFleb (S754_finite s m1 e1) (S754_finite s m2 e2) = true.
Proof.
  unfold SFleb, SFcompare.
  change (Pos.compare_cont Eq m1 m2) with (Pos.compare m1 m2).
  destruct s; intros [Hlt|[-> Hm]].
  - rewrite (proj2 (Z.compare_gt_iff e1 e2)) by lia. reflexivity.
  - rewrite Z.compare_refl.
    destruct (Pos.compare_spec m1 m2) as [| |]; try reflexivity. lia.
  - rewrite (proj2 (Z.compare_lt_iff e1 e2)) by lia. reflexivity.
  - rewrite Z.compare_refl.
    destruct (Pos.compare_spec m1 m2) as [| |]; try reflexivity. lia.
Qed.

(** Subtracting a positive finite float never gives more. *)
Lemma SFsub_finite_le (sc : bool) (mc : positive) (ec : Z) (mt : positive) (et : Z) :
  bounded prec emax mc ec = true -> bounded prec emax mt et = true ->
  let F := SFsub prec emax (S754_finite sc mc ec) (S754_finite false mt et) in
  valid_binary F = true -> F <> S754_nan ->
  SFleb F (S754_finite sc mc ec) = true.
Proof.
  intros Hbc Hbt F HvF Hnan.
  destruct (bounded_inv _ _ Hbc) as [_ [_ [Hec _]]].
  destruct (bounded_inv _ _ Hbt) as [_ [_ [Het _]]].
  unfold SFsub in F. cbv zeta in F.
  set (ez := Z.min ec et) in *.
  assert (Hez : -1074 <= ez) by (subst ez; lia).
  pose proof (scaled_shl_align mc ec ez Hez ltac:(subst ez; lia)) as HA.
  pose proof (scaled_shl_align mt et ez Hez ltac:(subst ez; lia)) as HB.
  set (Ac := Z.pos (fst (shl_align mc ec ez))) in *.
  set (Bt := Z.pos (fst (shl_align mt et ez))) in *.
  assert (HAc : 0 < Ac) by (subst Ac; lia).
  assert (HBt : 0 < Bt) by (subst Bt; lia).
  pose proof (pow2_pos (ez + 1074) ltac:(lia)) as HP.
  assert (HT : 0 < scaled mt et)
    by (unfold scaled; apply Z.mul_pos_pos; [lia|apply pow2_pos; lia]).
  cbn [cond_Zopp] in F.
  destruct sc; cbn [cond_Zopp] in F.
  - (* c < 0: the exact difference is below c *)
    destruct (- Ac - Bt) as [|d|d] eqn:HD; try lia.
    cbn [binary_normalize] in F.
    assert (Hd : scaled mc ec <= scaled d ez).
    { unfold scaled at 2. replace (Z.pos d) with (Ac + Bt) by lia. nia. }
    destruct (binary_round_lower true d ez mc ec Hez Hbc Hd)
      as [HF|[m' [e' [HF [He' Hle]]]]]; fold F in HF; rewrite HF in *.
    + reflexivity.
    + apply SFleb_finite_le. cbn [SpecFloat.valid_binary] in HvF.
      destruct (canonical_le _ _ _ _ Hbc HvF Hle) as [?|[? ?]]; [left|right]; auto.
  - destruct (Ac - Bt) as [|d|d] eqn:HD; cbn [binary_normalize] in F.
    + reflexivity.
    + assert (Hd : scaled d ez <= scaled mc ec).
      { unfold scaled at 1. replace (Z.pos d) with (Ac - Bt) by lia. nia. }
      destruct (binary_round_upper false d ez mc ec Hez Hbc Hd)
        as [HF|[m' [e' [HF [He' Hle]]]]]; fold F in HF; rewrite HF in *.
      * reflexivity.
      * apply SFleb_finite_le. cbn [SpecFloat.valid_binary] in HvF.
        destruct (canonical_le _ _ _ _ HvF Hbc Hle) as [?|[? ?]]; [left|right]; auto.
    + destruct (binary_round_sign true d ez) as [HF|[HF|[HF|[m' [e' HF]]]]];
        cbv zeta in HF; fold F in HF; rewrite HF in *;
        [contradiction|reflexivity|reflexivity|reflexivity].
Qed.
Lemma scaled_pos (m : positive) (e : Z) : -1074 <= e -> 0 < scaled m e.
Proof.
  intros He. unfold scaled. apply Z.mul_pos_pos; [lia|]. apply pow2_pos. lia.
Qed.

(** Rounding a positive value below [2^1023] gives a finite float within
    a relative error of [2^-52]. *)
Lemma binary_round_rel (d : positive) (ez : Z) :
  -1074 <= ez -> scaled d ez < 2 ^ 2097 ->
  exists m' e',
    binary_round prec emax false d ez = S754_finite false m' e'
    /\ -1074 <= e'
    /\ Z.abs (scaled m' e' - scaled d ez) * 2 ^ 52 <= scaled d ez.
Proof.
  intros Hez Hmax.
  destruct (binary_round_cases false d ez Hez)
    as [e1 [n [X [m2 [He1 [Hn [HX [Hval [Hez' [[mz [HXz Hcan1]] [Hb [Hex Hcases]]]]]]]]]]]].
  set (P := 2 ^ (e1 + 1074 - n)) in *.
  assert (HP : 0 < P) by (apply pow2_pos; lia).
  assert (HQ : 0 < 2 ^ n) by (apply pow2_pos; lia).
  assert (Hunit : 2 ^ (e1 + 1074) = 2 ^ n * P).
  { unfold P. rewrite <- pow2_split by lia. f_equal. lia. }
  destruct (digits2_pos_bounds mz) as [Hlo Hhi]. rewrite <- HXz in Hlo, Hhi.
  set (dg := Z.pos (digits2_pos mz)) in *.
  assert (Hdg : 1 <= dg) by (subst dg; lia).
  (* no overflow *)
  assert (He1max : e1 <= 970).
  { assert (Hd : dg - 1 + (e1 + 1074 - n) < 2097).
    { apply (Z.pow_lt_mono_r_iff 2); [lia|lia|].
      rewrite pow2_split by lia. fold P.
      apply Z.le_lt_trans with (X * P); [|lia].
      apply Z.mul_le_mono_nonneg_r; lia. }
    unfold fexp, emin, prec, emax in Hcan1. fold dg in Hcan1. lia. }
  (* the rounded mantissa is within one unit, and the unit is small *)
  assert (Herr : Z.abs (m2 * 2 ^ n - X) * 2 ^ 52 <= X).
  { destruct (Z.eq_dec n 0) as [Hn0|Hn0].
    - assert (Hm2 : m2 = X / 2 ^ n).
      { apply Hex. rewrite Hn0. apply Z.mod_1_r. }
      rewrite Hm2, Hn0. change (2 ^ 0) with 1.
      rewrite Z.div_1_r, Z.mul_1_r, Z.sub_diag. cbn. lia.
    - assert (Hn53 : dg = n + 53).
      { unfold fexp, emin, prec, emax in Hcan1. fold dg in Hcan1. lia. }
      assert (Hbig : 2 ^ n * 2 ^ 52 <= X).
      { rewrite <- pow2_split by lia.
        replace (n + 52) with (dg - 1) by lia. exact Hlo. }
      pose proof (Z.div_mod X (2 ^ n) ltac:(lia)) as Hdm.
      pose proof (Z.mod_pos_bound X (2 ^ n) HQ) as Hmod.
      assert (Z.abs (m2 * 2 ^ n - X) <= 2 ^ n) by nia.
      nia. }
  assert (Hm2pos : 0 < m2).
  { destruct (Z.eq_dec n 0) as [Hn0|Hn0].
    - assert (Hm2 : m2 = X / 2 ^ n).
      { apply Hex. rewrite Hn0. apply Z.mod_1_r. }
      rewrite Hm2, Hn0. change (2 ^ 0) with 1. rewrite Z.div_1_r. lia.
    - assert (Hn53 : dg = n + 53).
      { unfold fexp, emin, prec, emax in Hcan1. fold dg in Hcan1. lia. }
      assert (2 ^ 52 <= X / 2 ^ n); [|lia].
      apply Z.div_le_lower_bound; [lia|].
      rewrite <- pow2_split by lia.
      replace (n + 52) with (dg - 1) by lia. exact Hlo. }
  assert (Hfinal : Z.abs (m2 * (2 ^ n * P) - scaled d ez) * 2 ^ 52
                   <= scaled d ez).
  { rewrite Hval.
    replace (m2 * (2 ^ n * P) - X * P) with ((m2 * 2 ^ n - X) * P) by ring.
    rewrite Z.abs_mul, (Z.abs_eq P) by lia. nia. }
  destruct Hcases as [[Hz HR]|[[p [Hp [Hlt HR]]]|[Hmaxm HR]]].
  - lia.
  - exists p, e1. replace (e1 <=? 971) with true in HR
      by (symmetry; apply Z.leb_le; lia).
    split; [exact HR|]. split; [lia|].
    unfold scaled at 1. rewrite Hunit, <- Hp. exact Hfinal.
  - exists 4503599627370496%positive, (e1 + 1).
    replace (e1 + 1 <=? 971) with true in HR by (symmetry; apply Z.leb_le; lia).
    split; [exact HR|]. split; [lia|].
    unfold scaled at 1.
    replace (e1 + 1 + 1074) with (1 + (e1 + 1074)) by lia.
    rewrite pow2_split by lia. rewrite Hunit.
    change (Z.pos 4503599627370496 * (2 ^ 1 * (2 ^ n * P)))
      with (4503599627370496 * (2 * (2 ^ n * P))).
    replace (4503599627370496 * (2 * (2 ^ n * P))) with (2 ^ 53 * (2 ^ n * P))
      by (change (2 ^ 53) with 9007199254740992; ring).
    rewrite <- Hmaxm. exact Hfinal.
Qed.
End Rounding64.

(** ** Binary64 facts

    Read off the IEEE specification of the primitive operations
    ([Prim2SF] and the [*_spec] equations of the standard library). *)

Module Float64Facts.
Import Floats.
Import Float64 Rounding64.
Local Open Scope float_scope.

Lemma int_of_SF_exn (f : spec_float) (e : exn) :
  int_of_SF f = Raise e -> e = ValueError \/ e = OverflowError.
Proof. destruct f; cbn; intros [= <-]; auto. Qed.

Lemma finite_int (x : float) :
  finite x = true -> exists n, int_of_SF (Prim2SF x) = Ok n.
Proof.
  unfold finite. destruct (Prim2SF x); cbn; try discriminate; now eexists.
Qed.

Lemma int_finite (x : float) (n : Z) :
  int_of_SF (Prim2SF x) = Ok n -> finite x = true.
Proof. unfold finite. destruct (Prim2SF x); cbn; congruence. Qed.

(** [floor_SF] is the floor of the value [(-1)^s * m * 2^e]: for a
    negative exponent, the greatest [k] with [k * 2^(-e) <= (-1)^s * m]. *)
Lemma floor_SF_spec (s : bool) (m : positive) (e k : Z) :
  (e < 0)%Z -> floor_SF (S754_finite s m e) = Some k ->
  (k * 2 ^ (- e) <= cond_Zopp s (Z.pos m) < (k + 1) * 2 ^ (- e))%Z.
Proof.
  intros He [= <-]. rewrite Z.shiftl_div_pow2 by lia.
  assert (Hp : (0 < 2 ^ (- e))%Z) by (apply Z.pow_pos_nonneg; lia).
  pose proof (Z.div_mod (cond_Zopp s (Z.pos m)) (2 ^ (- e)) ltac:(lia)).
  pose proof (Z.mod_pos_bound (cond_Zopp s (Z.pos m)) (2 ^ (- e)) Hp).
  lia.
Qed.

(** Below zero [int()] and the floor differ: [int(-0.6) = 0],
    [floor(-0.6) = -1]. *)
Lemma int_is_not_floor :
  num_int (-0.6) = Ok 0%Z /\ floor (-0.6) = Some (-1)%Z.
Proof. split; reflexivity. Qed.

Lemma Prim2SF_0 : Prim2SF 0 = S754_zero false.
Proof. reflexivity. Qed.

Lemma Prim2SF_12 : Prim2SF 12 = S754_finite false 6755399441055744 (-49).
Proof. reflexivity. Qed.

(** [0 < x]: a positive finite float or plus infinity. *)
Lemma ltb_0_inv (x : float) :
  (0 <? x) = true ->
  Prim2SF x = S754_infinity false \/ exists m e, Prim2SF x = S754_finite false m e.
Proof.
  rewrite ltb_spec, Prim2SF_0. unfold SFltb.
  destruct (Prim2SF x) as [s|s| |s m e]; cbn; try discriminate.
  - destruct s; [discriminate|auto].
  - destruct s; [discriminate|eauto].
Qed.

(** [x <= 0]: a zero, a negative finite float or minus infinity. *)
Lemma leb_0_inv (x : float) :
  (x <=? 0) = true ->
  (exists s, Prim2SF x = S754_zero s) \/ Prim2SF x = S754_infinity true
  \/ exists m e, Prim2SF x = S754_finite true m e.
Proof.
  rewrite leb_spec, Prim2SF_0. unfold SFleb.
  destruct (Prim2SF x) as [s|s| |s m e]; cbn; try discriminate; eauto.
  - destruct s; [auto|discriminate].
  - destruct s; [eauto|discriminate].
Qed.

(** [0 <= x] without [0 < x]: a zero. *)
Lemma leb_0_not_ltb (x : float) :
  (0 <=? x) = true -> (0 <? x) = false -> exists s, Prim2SF x = S754_zero s.
Proof.
  rewrite leb_spec, ltb_spec, Prim2SF_0. unfold SFleb, SFltb.
  destruct (Prim2SF x) as [s|s| |s m e]; cbn; try discriminate; eauto;
    destruct s; discriminate.
Qed.

(** The month count of a positive duration is its floor, and is not
    negative. *)
Lemma int_pos_duration (duree : float) :
  (0 <? duree) = true -> finite (duree * 12) = true ->
  exists k, int_of_SF (Prim2SF (duree * 12)) = Ok k
            /\ floor (duree * 12) = Some k /\ (0 <= k)%Z.
Proof.
  intros Hpos Hfin. unfold finite, floor in *.
  rewrite mul_spec, Prim2SF_12 in *.
  destruct (ltb_0_inv _ Hpos) as [Hd|[m [e Hd]]]; rewrite Hd in *;
    [discriminate|].
  cbn [SF64mul SFmul xorb] in *.
  destruct (binary_round_aux_sign false (Z.pos (m * 6755399441055744))
              (e + -49) loc_Exact) as [Hr|[Hr|[Hr|[m' [e' Hr]]]]];
    cbv zeta in Hr; rewrite Hr in *; try discriminate.
  - exists 0%Z. cbn. repeat split; lia.
  - exists (Z.shiftl (Z.pos m') e'). cbn. repeat split.
    apply Z.shiftl_nonneg. lia.
Qed.

(** The month count of a duration [<= 0] is not positive. *)
Lemma int_nonpos_duration (duree : float) :
  (duree <=? 0) = true -> finite (duree * 12) = true ->
  exists k, int_of_SF (Prim2SF (duree * 12)) = Ok k /\ (k <= 0)%Z.
Proof.
  intros Hneg Hfin. unfold finite in *.
  rewrite mul_spec, Prim2SF_12 in *.
  destruct (leb_0_inv _ Hneg) as [[s Hd]|[Hd|[m [e Hd]]]]; rewrite Hd in *.
  - exists 0%Z. cbn. split; [reflexivity|lia].
  - discriminate.
  - cbn [SF64mul SFmul xorb] in *.
    destruct (binary_round_aux_sign true (Z.pos (m * 6755399441055744))
                (e + -49) loc_Exact) as [Hr|[Hr|[Hr|[m' [e' Hr]]]]];
      cbv zeta in Hr; rewrite Hr in *; try discriminate.
    + exists 0%Z. cbn. split; [reflexivity|lia].
    + exists (- Z.shiftl (Z.pos m') e')%Z. cbn. split; [reflexivity|].
      pose proof (proj2 (Z.shiftl_nonneg (Z.pos m') e')). lia.
Qed.

Lemma Prim2SF_1e_9 :
  Prim2SF 1e-9 = S754_finite false 4835703278458517 (-82).
Proof. reflexivity. Qed.

Lemma SFcompare_finite_Eq (m : positive) (e : Z) (y : spec_float) :
  SFcompare (S754_finite false m e) y = Some Eq -> y = S754_finite false m e.
Proof.
  destruct y as [s|s| |s m' e']; cbn; try discriminate;
    try (destruct s; discriminate).
  destruct s; [discriminate|].
  destruct (Z.compare_spec e e') as [He| |]; try discriminate.
  intros [= Hm]. change (Pos.compare m m' = Eq) in Hm.
  apply Pos.compare_eq in Hm. now subst.
Qed.

Lemma SFcompare_finite_refl (s : bool) (m : positive) (e : Z) :
  SFcompare (S754_finite s m e) (S754_finite s m e) = Some Eq.
Proof.
  cbn. rewrite Z.compare_refl.
  change (Pos.compare_cont Eq m m) with (Pos.compare m m).
  rewrite Pos.compare_refl. now destruct s.
Qed.

(** [x - x] is [+0] for a finite non-zero [x]. *)
Lemma sub_diag_finite (x : float) (s : bool) (m : positive) (e : Z) :
  Prim2SF x = S754_finite s m e -> x - x = 0.
Proof.
  intros Hx. apply Prim2SF_inj. rewrite sub_spec, Hx, Prim2SF_0.
  unfold SF64sub, SFsub. cbv zeta. now rewrite Z.sub_diag.
Qed.

(** [0.0 + x] is [x] for a finite non-zero [x]. *)
Lemma add_0_finite (x : float) (s : bool) (m : positive) (e : Z) :
  Prim2SF x = S754_finite s m e -> 0 + x = x.
Proof.
  intros Hx. apply Prim2SF_inj. now rewrite add_spec, Hx, Prim2SF_0.
Qed.

(** [x == 0]: a zero of either sign, which is not above [1e-9]. *)
Lemma eqb_0_inv (x : float) :
  (x =? 0) = true -> exists s, Prim2SF x = S754_zero s.
Proof.
  rewrite eqb_spec, Prim2SF_0. unfold SFeqb.
  destruct (Prim2SF x) as [s|s| |s m e]; cbn; try discriminate; eauto;
    destruct s; discriminate.
Qed.

Lemma eqb_0_below_tolerance (x : float) :
  (x =? 0) = true -> (1e-9 <? x) = false.
Proof.
  intros Hx. destruct (eqb_0_inv _ Hx) as [s Hs].
  now rewrite ltb_spec, Hs, Prim2SF_1e_9.
Qed.

(** The initial deposit when the cap is positive, finite and at most the
    initial capital: the whole cap is deposited and nothing is left. *)
Lemma depot_initial_plafond_atteint (capital_initial plafond_pea : float) :
  (0 <? plafond_pea) = true ->
  (plafond_pea <=? capital_initial) = true ->
  finite plafond_pea = true ->
  depot_initial capital_initial plafond_pea
  = {| l_capital := plafond_pea;
       l_net_investi := plafond_pea;
       l_mois_plafond := Some 0%Z;
       l_leftover := 0;
       l_historique := [plafond_pea] |}.
Proof.
  intros Hpos Hle Hfin.
  destruct (ltb_0_inv _ Hpos) as [Hc|[m [e Hc]]];
    [unfold finite in Hfin; rewrite Hc in Hfin; discriminate|].
  assert (Hmin : py_min capital_initial plafond_pea = plafond_pea).
  { unfold py_min. cbn [num_ltb arith].
    destruct (plafond_pea <? capital_initial) eqn:Hlt; [reflexivity|].
    apply Prim2SF_inj. rewrite Hc.
    apply SFcompare_finite_Eq.
    rewrite leb_spec in Hle. rewrite ltb_spec in Hlt.
    unfold SFleb, SFltb in *. rewrite Hc in *.
    destruct (SFcompare (S754_finite false m e) (Prim2SF capital_initial))
      as [[ | | ]|]; try discriminate; reflexivity. }
  unfold depot_initial. rewrite Hmin.
  cbn [num_ltb num_leb num_add num_sub lit_0 lit_1e_9 arith].
  rewrite Hpos, (sub_diag_finite _ _ _ _ Hc), (add_0_finite _ _ _ _ Hc).
  reflexivity.
Qed.

(** The initial deposit when the cap is a zero: nothing is deposited. *)
Lemma depot_initial_plafond_nul (capital_initial plafond_pea : float) (s : bool) :
  Prim2SF plafond_pea = S754_zero s ->
  depot_initial capital_initial plafond_pea
  = {| l_capital := 0;
       l_net_investi := 0;
       l_mois_plafond := None;
       l_leftover := plafond_pea;
       l_historique := [0] |}.
Proof.
  intros Hc. unfold depot_initial.
  cbn [num_ltb num_leb num_add num_sub lit_0 lit_1e_9 arith].
  now rewrite ltb_spec, Hc, Prim2SF_0.
Qed.

Lemma Prim2SF_100 : Prim2SF 100 = S754_finite false 7036874417766400 (-46).
Proof. reflexivity. Qed.

(** [x < 0] is false: [x] is NaN, a zero, a positive finite float or plus
    infinity. *)
Lemma ltb_0_false_inv (x : float) :
  (x <? 0) = false ->
  Prim2SF x = S754_nan \/ (exists s, Prim2SF x = S754_zero s)
  \/ Prim2SF x = S754_infinity false
  \/ exists m e, Prim2SF x = S754_finite false m e.
Proof.
  rewrite ltb_spec, Prim2SF_0. unfold SFltb.
  destruct (Prim2SF x) as [s|s| |s m e]; cbn; eauto;
    destruct s; try discriminate; eauto 6.
Qed.

Lemma ltb_0_false_intro (x : float) :
  Prim2SF x = S754_nan \/ (exists s, Prim2SF x = S754_zero s)
  \/ Prim2SF x = S754_infinity false
  \/ (exists m e, Prim2SF x = S754_finite false m e) ->
  (x <? 0) = false.
Proof.
  rewrite ltb_spec, Prim2SF_0. unfold SFltb.
  intros [H|[[s H]|[H|[m [e H]]]]]; rewrite H; reflexivity.
Qed.

Lemma div_100_nonneg (x : float) : (0 <=? x) = true -> (x / 100 <? 0) = false.
Proof.
  intros Hx. apply ltb_0_false_intro. rewrite div_spec, Prim2SF_100.
  rewrite leb_spec, Prim2SF_0 in Hx. unfold SFleb in Hx.
  destruct (Prim2SF x) as [s|s| |s m e]; cbn in Hx; try discriminate.
  - right. left. eexists. reflexivity.
  - destruct s; [discriminate|]. right. right. left. reflexivity.
  - destruct s; [discriminate|]. unfold SF64div, SFdiv.
    destruct (SFdiv_core_binary prec emax (Z.pos m) e
                (Z.pos 7036874417766400) (-46)) as [[mz ez] lz].
    destruct (binary_round_aux_sign (xorb false false) mz ez lz)
      as [H|[H|[H|[m' [e' H]]]]]; cbv zeta in H; rewrite H; eauto 6.
Qed.

Lemma py_max_0_nonneg (x : float) : (py_max x 0 <? 0) = false.
Proof.
  unfold py_max. cbn [num_ltb lit_0 arith].
  destruct (x <? 0) eqn:Hx; [reflexivity|assumption].
Qed.

Lemma mul_nonneg (a b : float) :
  (a <? 0) = false -> (b <? 0) = false -> (a * b <? 0) = false.
Proof.
  intros Ha Hb. apply ltb_0_false_intro. rewrite mul_spec.
  destruct (ltb_0_false_inv a Ha) as [H|[[s H]|[H|[m [e H]]]]]; rewrite H;
    destruct (ltb_0_false_inv b Hb) as [H'|[[s' H']|[H'|[m' [e' H']]]]];
    rewrite H'; cbn [SF64mul SFmul xorb]; eauto 6.
  destruct (binary_round_aux_sign false (Z.pos (m * m')) (e + e') loc_Exact)
    as [Hr|[Hr|[Hr|[m2 [e2 Hr]]]]]; cbv zeta in Hr; rewrite Hr; eauto 6.
Qed.

Lemma SFleb_refl (x : spec_float) : x <> S754_nan -> SFleb x x = true.
Proof.
  destruct x as [s|s| |s m e]; intros Hx; try reflexivity.
  - now destruct s.
  - contradiction.
  - unfold SFleb. now rewrite SFcompare_finite_refl.
Qed.

(** Subtracting something that is not negative never gives more, as long
    as the difference is a number. *)
Lemma sub_nonneg_le (c t : float) :
  (t <? 0) = false -> (c - t =? c - t) = true -> (c - t <=? c) = true.
Proof.
  intros Ht Hnan. rewrite leb_spec.
  assert (HF : Prim2SF (c - t) <> S754_nan).
  { intros Hn. rewrite eqb_spec, Hn in Hnan. discriminate. }
  pose proof (Prim2SF_valid (c - t)) as HvF.
  pose proof (Prim2SF_valid c) as Hvc.
  pose proof (Prim2SF_valid t) as Hvt.
  rewrite sub_spec in *. unfold SF64sub in *.
  destruct (ltb_0_false_inv t Ht) as [H|[[s H]|[H|[m [e H]]]]]; rewrite H in *.
  - exfalso. apply HF. now destruct (Prim2SF c).
  - destruct (Prim2SF c) as [sc|sc| |sc mc ec] eqn:Hc.
    + destruct sc, s; reflexivity.
    + cbn. now destruct sc.
    + exfalso. now apply HF.
    + cbn [SFsub]. apply SFleb_refl. discriminate.
  - destruct (Prim2SF c) as [sc|sc| |sc mc ec] eqn:Hc.
    + reflexivity.
    + destruct sc; [reflexivity|]. exfalso. now apply HF.
    + exfalso. now apply HF.
    + cbn. now destruct sc.
  - destruct (Prim2SF c) as [sc|sc| |sc mc ec] eqn:Hc.
    + reflexivity.
    + cbn. now destruct sc.
    + exfalso. now apply HF.
    + apply SFsub_finite_le; assumption.
Qed.
End Float64Facts.

(** ** Values of binary64 floats

    Floats that are finite and not negative, read as integers in units of
    [2^-1074]: the order is the order of the values, and a sum or a
    difference is the exact one up to a relative error of [2^-52]. *)

Module Float64Values.
Import Floats.
Import Float64 Rounding64 Float64Facts.

Lemma nonneg_value_nonneg (f : spec_float) (X : Z) : nonneg_value f X -> 0 <= X.
Proof.
  intros [[s [_ ->]]|[m [e [_ [Hb ->]]]]]; [lia|].
  destruct (bounded_inv _ _ Hb) as [_ [_ [He _]]].
  pose proof (scaled_pos m e He). lia.
Qed.

(** The value of a float that is [>= 0] and not [+inf]. *)
Lemma nonneg_value_Prim2SF (x : float) :
  (0 <=? x)%float = true -> Prim2SF x <> S754_infinity false ->
  exists X, nonneg_value (Prim2SF x) X.
Proof.
  rewrite leb_spec, Prim2SF_0. unfold SFleb. intros Hle Hinf.
  pose proof (Prim2SF_valid x) as Hv.
  destruct (Prim2SF x) as [s|s| |s m e]; cbn in Hle; try discriminate.
  - exists 0. left. eauto.
  - destruct s; [discriminate|]. now destruct Hinf.
  - destruct s; [discriminate|]. exists (scaled m e). right.
    exists m, e. auto.
Qed.

Lemma nonneg_value_units (x : float) (X : Z) :
  nonneg_value (Prim2SF x) X -> units x = Some X.
Proof.
  unfold units. intros [[s [-> ->]]|[m [e [-> [_ ->]]]]]; reflexivity.
Qed.

(** On floats that are not negative, [<] is the order of the values. *)
Lemma SFltb_nonneg (f g : spec_float) (X Y : Z) :
  nonneg_value f X -> nonneg_value g Y ->
  SFltb f g = true <-> X < Y.
Proof.
  intros [[s [-> ->]]|[m [e [-> [Hb ->]]]]] [[s' [-> ->]]|[m' [e' [-> [Hb' ->]]]]];
    unfold SFltb; cbn [SFcompare].
  - split; [discriminate|lia].
  - destruct (bounded_inv _ _ Hb') as [_ [_ [He _]]].
    pose proof (scaled_pos m' e' He). split; [lia|reflexivity].
  - destruct (bounded_inv _ _ Hb) as [_ [_ [He _]]].
    pose proof (scaled_pos m e He). split; [discriminate|lia].
  - change (Pos.compare_cont Eq m m') with (Pos.compare m m').
    split.
    + intros Hlt.
      destruct (Z.lt_ge_cases (scaled m e) (scaled m' e')) as [|Hge];
        [assumption|exfalso].
      destruct (canonical_le _ _ _ _ Hb' Hb Hge) as [He|[He Hm]].
      * rewrite (proj2 (Z.compare_gt_iff e e')) in Hlt by lia. discriminate.
      * subst e'. rewrite Z.compare_refl in Hlt.
        destruct (Pos.compare_spec m m') as [| |]; try discriminate. lia.
    + intros Hlt.
      destruct (canonical_le _ _ _ _ Hb Hb' ltac:(lia)) as [He|[He Hm]].
      * rewrite (proj2 (Z.compare_lt_iff e e')) by lia. reflexivity.
      * subst e'. rewrite Z.compare_refl.
        destruct (Pos.compare_spec m m') as [Heq| |]; try reflexivity; [|lia].
        subst m'. lia.
Qed.

Lemma ltb_nonneg (x y : float) (X Y : Z) :
  nonneg_value (Prim2SF x) X -> nonneg_value (Prim2SF y) Y ->
  ((x <? y)%float = true <-> X < Y).
Proof. intros Hx Hy. rewrite ltb_spec. now apply SFltb_nonneg. Qed.

(** [min(a, b)] of a float [a >= 0] and a finite float [b >= 0] is a
    finite float that is not negative and at most [b]. *)
Lemma py_min_nonneg (a b : float) (B : Z) :
  (0 <=? a)%float = true -> nonneg_value (Prim2SF b) B ->
  exists D, nonneg_value (Prim2SF (py_min a b)) D /\ D <= B.
Proof.
  intros Ha Hb. unfold py_min. cbn [num_ltb arith].
  destruct (b <? a)%float eqn:Hlt.
  - exists B. split; [assumption|lia].
  - assert (Hinf : Prim2SF a <> S754_infinity false).
    { intros Hinf. rewrite ltb_spec, Hinf in Hlt. unfold SFltb in Hlt.
      destruct Hb as [[s [Hb _]]|[m [e [Hb _]]]]; rewrite Hb in Hlt;
        discriminate. }
    destruct (nonneg_value_Prim2SF a Ha Hinf) as [A HA].
    exists A. split; [assumption|].
    destruct (Z.le_gt_cases A B) as [|Hgt]; [assumption|].
    apply (ltb_nonneg b a B A Hb HA) in Hgt. congruence.
Qed.

(** Adding two finite floats that are not negative, below the overflow
    threshold: the sum is within a relative error of [2^-52]. *)
Lemma add_nonneg (x y : float) (X Y : Z) :
  nonneg_value (Prim2SF x) X -> nonneg_value (Prim2SF y) Y ->
  X + Y < 2 ^ 2097 ->
  exists R, nonneg_value (Prim2SF (x + y)) R
            /\ Z.abs (R - (X + Y)) * 2 ^ 52 <= X + Y.
Proof.
  intros Hx Hy Hmax. pose proof (Prim2SF_valid (x + y)) as Hv.
  pose proof (nonneg_value_nonneg _ _ Hx) as HX0.
  pose proof (nonneg_value_nonneg _ _ Hy) as HY0.
  rewrite add_spec in *.
  destruct Hx as [[s [Hx ->]]|[m [e [Hx [Hb ->]]]]];
    destruct Hy as [[s' [Hy ->]]|[m' [e' [Hy [Hb' ->]]]]];
    rewrite Hx, Hy in *.
  - exists 0. split; [|cbn; lia]. left.
    destruct s, s'; cbn; eauto.
  - exists (scaled m' e'). split.
    + right. exists m', e'. auto.
    + rewrite Z.add_0_l, Z.sub_diag. change (Z.abs 0) with 0. lia.
  - exists (scaled m e). split.
    + right. exists m, e. auto.
    + rewrite Z.add_0_r, Z.sub_diag. change (Z.abs 0) with 0. lia.
  - destruct (bounded_inv _ _ Hb) as [_ [_ [He _]]].
    destruct (bounded_inv _ _ Hb') as [_ [_ [He' _]]].
    change (SF64add (S754_finite false m e) (S754_finite false m' e'))
      with (binary_round prec emax false
              (fst (shl_align m e (Z.min e e'))
               + fst (shl_align m' e' (Z.min e e'))) (Z.min e e')) in *.
    set (ez := Z.min e e') in *.
    assert (Hez : -1074 <= ez) by (subst ez; lia).
    pose proof (scaled_shl_align m e ez Hez ltac:(subst ez; lia)) as HA.
    pose proof (scaled_shl_align m' e' ez Hez ltac:(subst ez; lia)) as HB.
    set (A := fst (shl_align m e ez)) in *.
    set (B := fst (shl_align m' e' ez)) in *.
    assert (Hd : scaled (A + B) ez = scaled m e + scaled m' e').
    { unfold scaled at 1. rewrite Pos2Z.inj_add, Z.mul_add_distr_r. lia. }
    destruct (binary_round_rel (A + B) ez Hez ltac:(lia))
      as [mr [er [HR [Her Herr]]]].
    rewrite HR in *. exists (scaled mr er). split.
    + right. exists mr, er. auto.
    + rewrite <- Hd. exact Herr.
Qed.

(** Subtracting a smaller finite float, both not negative: the difference
    is not negative and within a relative error of [2^-52]. *)
Lemma sub_nonneg (x y : float) (X Y : Z) :
  nonneg_value (Prim2SF x) X -> nonneg_value (Prim2SF y) Y ->
  Y <= X -> X - Y < 2 ^ 2097 ->
  exists R, nonneg_value (Prim2SF (x - y)) R
            /\ Z.abs (R - (X - Y)) * 2 ^ 52 <= X - Y.
Proof.
  intros Hx Hy Hle Hmax. pose proof (Prim2SF_valid (x - y)) as Hv.
  rewrite sub_spec in *.
  destruct Hx as [[s [Hx ->]]|[m [e [Hx [Hb ->]]]]];
    destruct Hy as [[s' [Hy ->]]|[m' [e' [Hy [Hb' ->]]]]];
    rewrite Hx, Hy in *.
  - exists 0. split; [|cbn; lia]. left.
    destruct s, s'; cbn; eauto.
  - destruct (bounded_inv _ _ Hb') as [_ [_ [He' _]]].
    pose proof (scaled_pos m' e' He'). lia.
  - exists (scaled m e). split.
    + right. exists m, e. auto.
    + rewrite Z.sub_0_r, Z.sub_diag. change (Z.abs 0) with 0. lia.
  - destruct (bounded_inv _ _ Hb) as [_ [_ [He _]]].
    destruct (bounded_inv _ _ Hb') as [_ [_ [He' _]]].
    change (SF64sub (S754_finite false m e) (S754_finite false m' e'))
      with (binary_normalize prec emax
              (Z.pos (fst (shl_align m e (Z.min e e')))
               - Z.pos (fst (shl_align m' e' (Z.min e e'))))
              (Z.min e e') false) in *.
    set (ez := Z.min e e') in *.
    assert (Hez : -1074 <= ez) by (subst ez; lia).
    pose proof (scaled_shl_align m e ez Hez ltac:(subst ez; lia)) as HA.
    pose proof (scaled_shl_align m' e' ez Hez ltac:(subst ez; lia)) as HB.
    set (A := Z.pos (fst (shl_align m e ez))) in *.
    set (B := Z.pos (fst (shl_align m' e' ez))) in *.
    pose proof (pow2_pos (ez + 1074) ltac:(lia)) as HP.
    assert (HAB : B <= A) by nia.
    destruct (A - B) as [|d|d] eqn:HD; [| |lia]; cbn [binary_normalize] in *.
    + exists 0. split; [left; eauto|].
      replace (scaled m e - scaled m' e') with 0 by nia. cbn. lia.
    + assert (Hd : scaled d ez = scaled m e - scaled m' e').
      { unfold scaled at 1. rewrite <- HD. nia. }
      destruct (binary_round_rel d ez Hez ltac:(lia))
        as [mr [er [HR [Her Herr]]]].
      rewrite HR in *. exists (scaled mr er). split.
      * right. exists mr, er. auto.
      * rewrite <- Hd. exact Herr.
Qed.

Lemma Prim2SF_2p1022 :
  nonneg_value (Prim2SF 0x1p1022%float) (2 ^ 2096).
Proof.
  right. exists 4503599627370496%positive, 970%Z.
  split; [vm_compute; reflexivity|]. split; vm_compute; reflexivity.
Qed.
End Float64Values.

(** ** Properties of the program as it runs, on binary64 floats *)

Module Float64Properties.
Import Floats.
Import Float64 Rounding64 Float64Facts Float64Values.
Local Open Scope float_scope.

(** The loop keeps [cap_split]: each deposit is at most what is left of
    the cap, so the two sums stay finite and not negative, and each
    rounded addition and subtraction adds at most [2^-52] of its
    result. *)
Section Cap.
Variables taux_annuel_percent capital_initial : float.
Variables versement_mensuel plafond_pea : float.
Variables frais_annuels_percent inflation_percent : float.
Variable C : Z.
Variable n : Z.

Hypothesis plafond_value : nonneg_value (Prim2SF plafond_pea) C.
Hypothesis plafond_max : (C < 2 ^ 2096)%Z.
Hypothesis capital_initial_nonneg : (0 <=? capital_initial) = true.
Hypothesis versement_nonneg : (0 <=? versement_mensuel) = true.
Hypothesis n_max : (n < 2 ^ 51)%Z.

Lemma depot_initial_cap_split :
  cap_split C 0 (depot_initial capital_initial plafond_pea).
Proof.
  pose proof (nonneg_value_nonneg _ _ plafond_value) as HC.
  unfold depot_initial. cbn [num_ltb num_leb num_add num_sub lit_0 lit_1e_9 arith].
  destruct (0 <? plafond_pea) eqn:Hpos.
  - destruct (py_min_nonneg capital_initial plafond_pea C
                capital_initial_nonneg plafond_value) as [D [HD HDC]].
    pose proof (nonneg_value_nonneg _ _ HD) as HD0.
    assert (H0 : nonneg_value (Prim2SF 0) 0)
      by (left; exists false; split; [apply Prim2SF_0|reflexivity]).
    destruct (add_nonneg 0 (py_min capital_initial plafond_pea) 0 D H0 HD)
      as [N [HN HNe]].
    { apply Z.le_lt_trans with C; [lia|].
      apply Z.lt_trans with (1 := plafond_max).
      apply Z.pow_lt_mono_r; lia. }
    destruct (sub_nonneg plafond_pea (py_min capital_initial plafond_pea)
                C D plafond_value HD HDC) as [L [HL HLe]].
    { apply Z.le_lt_trans with C; [lia|].
      apply Z.lt_trans with (1 := plafond_max).
      apply Z.pow_lt_mono_r; lia. }
    exists N, L. cbn [l_net_investi l_leftover].
    split; [exact HN|]. split; [exact HL|].
    change (2 ^ 52)%Z with 4503599627370496%Z in *.
    change (2 ^ 51)%Z with 2251799813685248%Z. lia.
  - exists 0%Z, C. cbn [l_net_investi l_leftover].
    split; [left; exists false; split; [apply Prim2SF_0|reflexivity]|].
    split; [exact plafond_value|].
    change (2 ^ 51)%Z with 2251799813685248%Z. lia.
Qed.

Lemma mois_step_cap_split (r_m frais_mensuel : float) (k : Z)
    (l : Locals float) :
  (0 <= k)%Z -> (k + 1 <= 2 ^ 51)%Z ->
  cap_split C k l ->
  cap_split C (k + 1) (mois_step r_m frais_mensuel versement_mensuel l (k + 1)).
Proof.
  intros Hk Hkmax [N [L [HN [HL Hsum]]]].
  pose proof (nonneg_value_nonneg _ _ plafond_value) as HC.
  pose proof (nonneg_value_nonneg _ _ HN) as HN0.
  pose proof (nonneg_value_nonneg _ _ HL) as HL0.
  assert (HT : (C * (k + 1) <= C * 2 ^ 51)%Z)
    by (apply Z.mul_le_mono_nonneg_l; lia).
  assert (Hexp : (C * (2 ^ 51 + k + 1) = 2 ^ 51 * C + C * (k + 1))%Z) by ring.
  assert (Hexp' : (C * (2 ^ 51 + (k + 1) + 1)
                   = 2 ^ 51 * C + C * (k + 1) + C)%Z) by ring.
  assert (H2097 : (2 ^ 2097 = 2 * 2 ^ 2096)%Z)
    by (change 2097%Z with (1 + 2096)%Z; now rewrite pow2_split by lia).
  unfold mois_step. cbn [num_ltb num_leb num_add num_sub lit_1e_9 arith].
  destruct (1e-9 <? l_leftover l) eqn:Hgt.
  - destruct (py_min_nonneg versement_mensuel (l_leftover l) L
                versement_nonneg HL) as [D [HD HDL]].
    pose proof (nonneg_value_nonneg _ _ HD) as HD0.
    destruct (add_nonneg (l_net_investi l)
                (py_min versement_mensuel (l_leftover l)) N D HN HD)
      as [N' [HN' HNe]].
    { rewrite Hexp in Hsum. rewrite H2097.
      revert Hsum HT. generalize (C * (k + 1))%Z.
      change (2 ^ 51)%Z with 2251799813685248%Z. intros; lia. }
    destruct (sub_nonneg (l_leftover l)
                (py_min versement_mensuel (l_leftover l)) L D HL HD HDL)
      as [L' [HL' HLe]].
    { rewrite Hexp in Hsum. rewrite H2097.
      revert Hsum HT. generalize (C * (k + 1))%Z.
      change (2 ^ 51)%Z with 2251799813685248%Z. intros; lia. }
    exists N', L'. cbn [l_net_investi l_leftover].
    split; [exact HN'|]. split; [exact HL'|].
    rewrite Hexp'. rewrite Hexp in Hsum.
    revert Hsum HT. generalize (C * (k + 1))%Z.
    change (2 ^ 52)%Z with 4503599627370496%Z in *.
    change (2 ^ 51)%Z with 2251799813685248%Z. intros; lia.
  - exists N, L. cbn [l_net_investi l_leftover].
    split; [exact HN|]. split; [exact HL|].
    rewrite Hexp'. rewrite Hexp in Hsum. lia.
Qed.

Lemma etat_mois_cap_split (k : Z) :
  (k <= n)%Z ->
  cap_split C (Z.max 0 k)
    (etat_mois taux_annuel_percent capital_initial versement_mensuel
       plafond_pea frais_annuels_percent inflation_percent k).
Proof.
  intros Hkn. destruct (Z.le_gt_cases 0 k) as [Hk|Hk].
  - rewrite Z.max_r by assumption. unfold etat_mois. revert Hkn.
    apply (boucle_ind (A := arith) _ _ _
             (fun j lj => (j <= n)%Z -> cap_split C j lj));
      [intros _; apply depot_initial_cap_split | | assumption].
    intros j lj Hj IH Hjn. apply mois_step_cap_split; [assumption|lia|].
    apply IH. lia.
  - rewrite Z.max_l by lia. rewrite etat_mois_nonpos by lia.
    apply depot_initial_cap_split.
Qed.
End Cap.

Section Run.
Variables duree_annees taux_annuel_percent capital_initial : float.
Variables versement_mensuel plafond_pea : float.
Variables frais_annuels_percent taux_impot_percent inflation_percent : float.

(** C3. For every duration [> 0], the history [simulate_pea] returns has
    exactly [floor(duree_annees * 12) + 1] entries; and it does return
    whenever [duree_annees * 12] is finite. *)
Theorem history_length :
  (0 <? duree_annees) = true ->
  (forall r,
     simulate_pea duree_annees taux_annuel_percent capital_initial
       versement_mensuel plafond_pea frais_annuels_percent
       taux_impot_percent inflation_percent = Ok r ->
     exists k,
       floor (duree_annees * 12) = Some k
       /\ Z.of_nat (List.length (historique r)) = (k + 1)%Z)
  /\ (finite (duree_annees * 12) = true ->
      exists r,
        simulate_pea duree_annees taux_annuel_percent capital_initial
          versement_mensuel plafond_pea frais_annuels_percent
          taux_impot_percent inflation_percent = Ok r).
Proof.
  intros Hpos. split.
  - intros r Hsim.
    destruct (simulate_pea_inv (A := arith) _ _ _ _ _ _ _ _ _ Hsim)
      as [n [Hint ->]].
    destruct (int_pos_duration _ Hpos (int_finite _ _ Hint))
      as [k [Hint' [Hfloor Hk]]].
    change (num_int (duree_annees * lit_12)%num)
      with (int_of_SF (Prim2SF (duree_annees * 12))) in Hint.
    assert (n = k) as -> by congruence.
    exists k. split; [exact Hfloor|].
    cbn [historique]. rewrite etat_mois_historique_length. lia.
  - intros Hfin. destruct (finite_int _ Hfin) as [n Hint].
    eexists. apply (simulate_pea_ok (A := arith)). exact Hint.
Qed.

(** C4, amended. When the cap is positive and finite and the initial
    capital is at least the cap, every result [simulate_pea] returns has
    [mois_plafond = 0]; and it does return whenever [duree_annees * 12]
    is finite. *)
Theorem cap_reached_at_initial_deposit :
  (0 <? plafond_pea) = true ->
  (plafond_pea <=? capital_initial) = true ->
  finite plafond_pea = true ->
  (forall r,
     simulate_pea duree_annees taux_annuel_percent capital_initial
       versement_mensuel plafond_pea frais_annuels_percent
       taux_impot_percent inflation_percent = Ok r ->
     mois_plafond r = Some 0%Z)
  /\ (finite (duree_annees * 12) = true ->
      exists r,
        simulate_pea duree_annees taux_annuel_percent capital_initial
          versement_mensuel plafond_pea frais_annuels_percent
          taux_impot_percent inflation_percent = Ok r).
Proof.
  intros Hpos Hle Hfin. split.
  - intros r Hsim.
    destruct (simulate_pea_inv (A := arith) _ _ _ _ _ _ _ _ _ Hsim)
      as [n [_ ->]].
    cbn [mois_plafond]. unfold etat_mois. apply boucle_plafond_kept.
    now rewrite depot_initial_plafond_atteint.
  - intros Hd. destruct (finite_int _ Hd) as [n Hint].
    eexists. apply (simulate_pea_ok (A := arith)). exact Hint.
Qed.

(** After an initial deposit that exhausts the cap, the amount
    contributed compares equal to the cap and the remaining cap to 0. *)
Lemma depot_initial_exhausted :
  (0 <=? plafond_pea) = true ->
  (plafond_pea <=? capital_initial) = true ->
  finite plafond_pea = true ->
  let l := depot_initial capital_initial plafond_pea in
  (l_net_investi l =? plafond_pea) = true /\ (l_leftover l =? 0) = true.
Proof.
  intros Hnn Hle Hfin l. subst l.
  destruct (0 <? plafond_pea) eqn:Hpos.
  - rewrite depot_initial_plafond_atteint by assumption. cbn.
    destruct (ltb_0_inv _ Hpos) as [Hc|[m [e Hc]]];
      [unfold finite in Hfin; rewrite Hc in Hfin; discriminate|].
    split; [|reflexivity].
    rewrite eqb_spec, Hc. unfold SFeqb.
    now rewrite SFcompare_finite_refl.
  - destruct (leb_0_not_ltb _ Hnn Hpos) as [s Hc].
    rewrite (depot_initial_plafond_nul _ _ s Hc). cbn.
    rewrite !eqb_spec, Hc, Prim2SF_0. split; reflexivity.
Qed.

(** C6, amended. When the tax rate is not negative, the final capital
    after tax that [simulate_pea] returns, if it is a number (not NaN), is
    at most the last entry of the history it returns. *)
Theorem final_capital_at_most_last (r : SimulationResult float) (dernier : float) :
  (0 <=? taux_impot_percent) = true ->
  simulate_pea duree_annees taux_annuel_percent capital_initial
    versement_mensuel plafond_pea frais_annuels_percent
    taux_impot_percent inflation_percent = Ok r ->
  list_last (historique r) = Ok dernier ->
  (capital_final_brut r =? capital_final_brut r) = true ->
  (capital_final_brut r <=? dernier) = true.
Proof.
  intros Htax Hsim Hlast.
  destruct (simulate_pea_inv (A := arith) _ _ _ _ _ _ _ _ _ Hsim)
    as [n [_ ->]].
  cbn [historique capital_final_brut] in *.
  rewrite etat_mois_last in Hlast. injection Hlast as <-.
  unfold capital_net, impots, interets_bruts.
  cbn [num_sub num_mul num_div lit_100 arith].
  apply sub_nonneg_le. apply mul_nonneg.
  - now apply div_100_nonneg.
  - apply py_max_0_nonneg.
Qed.

(** C7, amended. When a cap that is not negative and is finite is
    exhausted by the initial deposit, then at every month the amount
    contributed equals the cap and the remaining cap equals 0, and the
    next monthly step deposits nothing: it leaves both (and the
    cap-reached month) unchanged whatever the monthly contribution, while
    the capital is multiplied by [1 + r_m], and then by [1 - f_m] when
    the monthly fee fraction [f_m] is above 0. *)
Theorem cap_exhausted_no_more_deposits (k : Z) :
  (0 <=? plafond_pea) = true ->
  (plafond_pea <=? capital_initial) = true ->
  finite plafond_pea = true ->
  (0 <= k)%Z ->
  let l := etat_mois taux_annuel_percent capital_initial versement_mensuel
             plafond_pea frais_annuels_percent inflation_percent k in
  let l' := etat_mois taux_annuel_percent capital_initial versement_mensuel
              plafond_pea frais_annuels_percent inflation_percent (k + 1) in
  let r_m := (taux_annuel_percent - inflation_percent) / 100 / 12 in
  let f_m := frais_annuels_percent / 100 / 12 in
  (l_net_investi l =? plafond_pea) = true
  /\ (l_leftover l =? 0) = true
  /\ l_net_investi l' = l_net_investi l
  /\ l_leftover l' = l_leftover l
  /\ l_mois_plafond l' = l_mois_plafond l
  /\ l_capital l'
     = (if 0 <? f_m then l_capital l * (1 + r_m) * (1 - f_m)
        else l_capital l * (1 + r_m)).
Proof.
  intros Hnn Hle Hfin Hk l l' r_m f_m.
  assert (Hinv : (l_net_investi l =? plafond_pea) = true
                 /\ (l_leftover l =? 0) = true).
  { subst l. unfold etat_mois.
    apply (boucle_ind (A := arith) _ _ _
             (fun _ lk => (l_net_investi lk =? plafond_pea) = true
                          /\ (l_leftover lk =? 0) = true));
      [now apply depot_initial_exhausted | | assumption].
    intros j lj _ [Hnet Hleft].
    rewrite (mois_step_capital_no_deposit (A := arith))
      by (now apply eqb_0_below_tolerance).
    now split. }
  destruct Hinv as [Hnet Hleft]. repeat split; try assumption;
    subst l'; rewrite etat_mois_succ by assumption; fold l;
    rewrite (mois_step_capital_no_deposit (A := arith))
      by (now apply eqb_0_below_tolerance); reflexivity.
Qed.

(** C9, amended. For a duration [<= 0] whose product with 12 is
    finite, [simulate_pea] returns without raising; the monthly loop
    runs over an empty range, the history has the single entry left by
    the initial deposit, and the final capital is computed from it. *)
Theorem nonpositive_duration :
  (duree_annees <=? 0) = true ->
  finite (duree_annees * 12) = true ->
  let l0 := depot_initial capital_initial plafond_pea in
  (exists nb_mois,
     num_int (duree_annees * 12) = Ok nb_mois /\ range 1 (nb_mois + 1) = [])
  /\ simulate_pea duree_annees taux_annuel_percent capital_initial
       versement_mensuel plafond_pea frais_annuels_percent
       taux_impot_percent inflation_percent
     = Ok {| capital_final_brut :=
                   capital_net taux_impot_percent (l_capital l0)
                     (l_net_investi l0);
                 net_investi := l_net_investi l0;
                 mois_plafond := l_mois_plafond l0;
                 historique := [l_capital l0] |}.
Proof.
  intros Hneg Hfin l0.
  destruct (int_nonpos_duration _ Hneg Hfin) as [n [Hint Hn]].
  split.
  - exists n. split; [exact Hint|]. apply range_empty. lia.
  - rewrite (simulate_pea_ok (A := arith) _ _ _ _ _ _ _ _ n Hint).
    cbv zeta. rewrite etat_mois_nonpos by assumption. fold l0.
    subst l0. now rewrite depot_initial_historique.
Qed.

(** C10. Whenever [simulate_pea] returns, the history it returns is
    not empty (its first entry is appended before the loop, whatever
    the inputs), so its last entry can be read; and no call of the
    comparator raises [IndexError]. *)
Theorem history_never_empty (rates : list float) :
  (exists premier,
     l_historique (depot_initial capital_initial plafond_pea) = [premier])
  /\ (forall r,
        simulate_pea duree_annees taux_annuel_percent capital_initial
          versement_mensuel plafond_pea frais_annuels_percent
          taux_impot_percent inflation_percent = Ok r ->
      historique r <> [] /\ exists x, list_last (historique r) = Ok x)
  /\ calcul_scenarios duree_annees capital_initial versement_mensuel
       plafond_pea rates frais_annuels_percent inflation_percent
       taux_impot_percent <> Raise IndexError.
Proof.
  split; [|split].
  - eexists. apply depot_initial_historique.
  - intros r. apply simulate_pea_historique.
  - intros Hraise. apply calcul_scenarios_raises in Hraise.
    apply int_of_SF_exn in Hraise. destruct Hraise; discriminate.
Qed.

(** C2, amended. For a cap, an initial capital and a monthly
    contribution that are not negative, a cap below [2^1022] and fewer
    than [2^51] months, [simulate_pea] returns a total contributed that
    is a finite number, not negative and at most the cap times
    [1 + (months + 1) * 2^-51]: the cap holds up to the rounding
    accumulated over the deposits, which is relative to the cap and not
    within the fixed [1e-9].  Values are in units of [2^-1074]. *)
Theorem contributions_within_rounded_cap (nb_mois : Z) :
  (0 <=? plafond_pea) = true -> (plafond_pea <? 0x1p1022) = true ->
  (0 <=? capital_initial) = true -> (0 <=? versement_mensuel) = true ->
  int_of_SF (Prim2SF (duree_annees * 12)) = Ok nb_mois ->
  (nb_mois < 2 ^ 51)%Z ->
  exists r,
    simulate_pea duree_annees taux_annuel_percent capital_initial
      versement_mensuel plafond_pea frais_annuels_percent
      taux_impot_percent inflation_percent = Ok r
    /\ exists N C : Z,
         units (net_investi r) = Some N /\ units plafond_pea = Some C
         /\ (0 <= N)%Z
         /\ (2 ^ 51 * N <= C * (2 ^ 51 + Z.max 0 nb_mois + 1))%Z.
Proof.
  intros Hcap Hmax Hci Hv Hint Hn.
  rewrite (simulate_pea_ok (A := arith) _ _ _ _ _ _ _ _ nb_mois Hint).
  eexists. split; [reflexivity|]. cbn [net_investi].
  destruct (nonneg_value_Prim2SF plafond_pea Hcap) as [C HC].
  { intros Hinf. rewrite ltb_spec, Hinf in Hmax. discriminate. }
  assert (HCmax : (C < 2 ^ 2096)%Z)
    by (apply (ltb_nonneg _ _ _ _ HC Prim2SF_2p1022); exact Hmax).
  destruct (etat_mois_cap_split taux_annuel_percent capital_initial
              versement_mensuel plafond_pea frais_annuels_percent
              inflation_percent C nb_mois HC HCmax Hci Hv Hn nb_mois
              ltac:(lia)) as [N [L [HN [HL Hsum]]]].
  exists N, C.
  pose proof (nonneg_value_nonneg _ _ HN). pose proof (nonneg_value_nonneg _ _ HL).
  split; [now apply nonneg_value_units|].
  split; [now apply nonneg_value_units|]. split; [assumption|].
  change (2 ^ 51)%Z with 2251799813685248%Z in *. lia.
Qed.
End Run.

Abbreviation sim := (simulate_pea (A := arith)).

Lemma history_length_witness :
  exists r k,
    sim 2.55 6 10000 1000 150000 0 17.2 0 = Ok r
    /\ floor (2.55 * 12) = Some k
    /\ Z.of_nat (List.length (historique r)) = (k + 1)%Z.
Proof.
  destruct (history_length 2.55 6 10000 1000 150000 0 17.2 0)
    as [Hlen Hret]; [vm_compute; reflexivity|].
  destruct Hret as [r Hr]; [vm_compute; reflexivity|].
  destruct (Hlen r Hr) as [k Hk]. exists r, k. split; [exact Hr | exact Hk].
Defined.

Lemma cap_reached_at_initial_deposit_witness :
  exists r,
    sim 1 5 200000 1000 150000 0 17.2 0 = Ok r /\ mois_plafond r = Some 0%Z.
Proof.
  destruct (cap_reached_at_initial_deposit 1 5 200000 1000 150000 0 17.2 0)
    as [Hmois Hret]; try (vm_compute; reflexivity).
  destruct Hret as [r Hr]; [vm_compute; reflexivity|].
  exists r. split; [exact Hr | exact (Hmois r Hr)].
Defined.

(** C4 as stated fails when the cap is 0: the initial deposit is skipped
    (line 45 requires a cap above 0) and no month is ever recorded. *)
Lemma cap_zero_never_reached :
  (0 <=? 1000) = true
  /\ exists r, sim 1 5 1000 100 0 0 17.2 0 = Ok r /\ mois_plafond r = None.
Proof. split; [|eexists; split]; vm_compute; reflexivity. Qed.

Lemma cap_exhausted_no_more_deposits_witness :
  let l := etat_mois (A := arith) 5 200000 1000 150000 0.5 1 5 in
  let l' := etat_mois (A := arith) 5 200000 1000 150000 0.5 1 (5 + 1) in
  let r_m := (5 - 1) / 100 / 12 in
  let f_m := 0.5 / 100 / 12 in
  (l_net_investi l =? 150000) = true
  /\ (l_leftover l =? 0) = true
  /\ l_net_investi l' = l_net_investi l
  /\ l_leftover l' = l_leftover l
  /\ l_mois_plafond l' = l_mois_plafond l
  /\ l_capital l'
     = (if 0 <? f_m then l_capital l * (1 + r_m) * (1 - f_m)
        else l_capital l * (1 + r_m)).
Proof.
  apply (cap_exhausted_no_more_deposits 5 200000 1000 150000 0.5 1 5);
    [vm_compute; reflexivity | vm_compute; reflexivity
    | vm_compute; reflexivity | lia].
Defined.

(** C7 as stated fails when the cap is infinite: with an initial capital
    that is infinite too the initial deposit leaves [inf - inf], which is
    NaN and not 0, and no cap-reached month is recorded. *)
Lemma cap_exhausted_infinite_cap :
  (infinity <=? infinity) = true
  /\ (l_leftover (etat_mois (A := arith) 5 infinity 1000 infinity 0 0 0)
      =? 0) = false
  /\ exists r,
       sim 1 5 infinity 1000 infinity 0 17.2 0 = Ok r
       /\ mois_plafond r = None.
Proof.
  split; [|split; [|eexists; split]]; vm_compute; reflexivity.
Qed.

Lemma nonpositive_duration_witness :
  (exists nb_mois,
     num_int (Arith := arith) (-1 * 12) = Ok nb_mois /\ range 1 (nb_mois + 1) = [])
  /\ sim (-1) 5 1000 100 150000 0 17.2 0
     = Ok {| capital_final_brut := 1000;
             net_investi := 1000;
             mois_plafond := None;
             historique := [1000] |}.
Proof.
  apply (nonpositive_duration (-1) 5 1000 100 150000 0 17.2 0);
    vm_compute; reflexivity.
Defined.

(** C9 as stated fails on a finite negative duration whose product with
    12 overflows: [int()] of minus infinity raises [OverflowError]. *)
Lemma nonpositive_duration_can_raise :
  (-1e308 <=? 0) = true
  /\ finite (-1e308) = true
  /\ sim (-1e308) 5 1000 100 150000 0 17.2 0 = Raise OverflowError.
Proof. repeat split; vm_compute; reflexivity. Qed.

Lemma history_never_empty_witness :
  exists r,
    sim 1 5 1000 100 150000 0 17.2 0 = Ok r
    /\ (historique r <> [] /\ exists x, list_last (historique r) = Ok x).
Proof.
  eexists. split; [vm_compute; reflexivity|].
  apply (proj1 (proj2 (history_never_empty 1 5 1000 100 150000 0 17.2 0 []))).
  vm_compute. reflexivity.
Defined.

Lemma contributions_within_rounded_cap_witness :
  exists r,
    sim 13 6 100000 359.57 150000 0 17.2 0 = Ok r
    /\ exists N C : Z,
         units (net_investi r) = Some N /\ units 150000 = Some C
         /\ (0 <= N)%Z /\ (2 ^ 51 * N <= C * (2 ^ 51 + Z.max 0 156 + 1))%Z.
Proof.
  apply (contributions_within_rounded_cap 13 6 100000 359.57 150000 0 17.2 0
           156); try (vm_compute; reflexivity).
Defined.

(** C2 as stated fails on binary64 floats: with a negative cap nothing is
    contributed, and 0 is above the cap; and with a cap of 1e9 reached by
    deposits of 333333333.33 the rounded running sum ends one unit in the
    last place above the cap, more than the tolerance [1e-9]. *)
Lemma contributions_exceed_cap :
  (exists r,
     sim 1 5 0 100 (-5) 0 17.2 0 = Ok r
     /\ net_investi r = 0
     /\ (net_investi r <=? -5 + 1e-9) = false)
  /\ (exists r,
       sim 1 0 0 333333333.33 1e9 0 0 0 = Ok r
       /\ net_investi r = 1000000000.0000001
       /\ (net_investi r <=? 1e9 + 1e-9) = false).
Proof. split; eexists; (split; [|split]); vm_compute; reflexivity. Qed.

Lemma final_capital_at_most_last_witness :
  exists r dernier,
    sim 2 6 10000 1000 150000 0.5 17.2 1 = Ok r
    /\ list_last (historique r) = Ok dernier
    /\ (capital_final_brut r <=? dernier) = true.
Proof.
  destruct (sim 2 6 10000 1000 150000 0.5 17.2 1) as [r|e] eqn:Hsim;
    [|vm_compute in Hsim; discriminate].
  destruct (list_last (historique r)) as [dernier|e] eqn:Hlast;
    [|vm_compute in Hsim; injection Hsim as <-;
      vm_compute in Hlast; discriminate].
  exists r, dernier. split; [reflexivity|]. split; [exact Hlast|].
  apply (final_capital_at_most_last 2 6 10000 1000 150000 0.5 17.2 1
           r dernier); [vm_compute; reflexivity | exact Hsim | exact Hlast |].
  vm_compute in Hsim. injection Hsim as <-. vm_compute. reflexivity.
Defined.

(** C6 as stated fails on binary64 floats: a negative tax rate adds to
    the final capital; and when the capital overflows the tax is infinite
    and the final capital is NaN, which is not [<=] anything. *)
Lemma tax_can_increase_final_capital :
  (exists r dernier,
     sim 1 12 1000 0 100000 0 (-10) 0 = Ok r
     /\ list_last (historique r) = Ok dernier
     /\ (capital_final_brut r <=? dernier) = false)
  /\ (exists r dernier,
       sim 1 1e308 1000 0 100000 0 17.2 0 = Ok r
       /\ list_last (historique r) = Ok dernier
       /\ (capital_final_brut r <=? dernier) = false).
Proof. split; eexists _, _; (split; [|split]); vm_compute; reflexivity. Qed.
End Float64Properties.



(** * Further properties of the code

    What follows goes beyond the statements above: the deposit schedule,
    the behaviour once the cap is reached, the strings of
    [format_duree_mois], the layout of the report and the window handler
    [run_simulation]. *)

(** ** The deposit schedule, for any arithmetic *)

Section Schedule.
Context {num : Type} {A : Arith num}.
Local Open Scope num_scope.

(** The part of the locals that decides the deposits. *)
Lemma mois_step_schedule (r_m r_m' frais_mensuel frais_mensuel' versement : num)
    (l l' : Locals num) (mois : Z) :
  l_net_investi l = l_net_investi l' ->
  l_leftover l = l_leftover l' ->
  l_mois_plafond l = l_mois_plafond l' ->
  let s := mois_step r_m frais_mensuel versement l mois in
  let s' := mois_step r_m' frais_mensuel' versement l' mois in
  l_net_investi s = l_net_investi s'
  /\ l_leftover s = l_leftover s'
  /\ l_mois_plafond s = l_mois_plafond s'.
Proof.
  intros Hn Hl Hm. unfold mois_step. rewrite <- Hn, <- Hl, <- Hm.
  destruct (l_leftover l >? lit_1e_9); cbn; auto.
Qed.

Lemma etat_mois_schedule
    (taux taux' frais frais' inflation inflation' : num)
    (capital_initial versement plafond : num) (k : Z) :
  let l := etat_mois taux capital_initial versement plafond frais inflation k in
  let l' := etat_mois taux' capital_initial versement plafond frais' inflation' k in
  l_net_investi l = l_net_investi l'
  /\ l_leftover l = l_leftover l'
  /\ l_mois_plafond l = l_mois_plafond l'.
Proof.
  cbv zeta. destruct (Z.le_gt_cases 0 k) as [Hk|Hk].
  - pattern k. apply natlike_ind; [| |assumption].
    + rewrite !etat_mois_nonpos by lia. auto.
    + intros j Hj [Hn [Hl Hm]]. unfold Z.succ.
      rewrite !etat_mois_succ by assumption.
      now apply mois_step_schedule.
  - rewrite !etat_mois_nonpos by lia. auto.
Qed.

(** The month recorded as the one where the cap was reached is a month of
    the run. *)
Lemma etat_mois_plafond_range
    (taux capital_initial versement plafond frais inflation : num) (k m : Z) :
  l_mois_plafond
    (etat_mois taux capital_initial versement plafond frais inflation k)
  = Some m ->
  (0 <= m <= Z.max 0 k)%Z.
Proof.
  destruct (Z.le_gt_cases 0 k) as [Hk|Hk].
  - revert m. pattern k. apply natlike_ind; [| |assumption].
    + intros m. rewrite etat_mois_nonpos by lia. unfold depot_initial.
      destruct (plafond >? lit_0); cbn; [|discriminate].
      destruct (_ <=? lit_1e_9); [|discriminate]. intros [= <-]. lia.
    + intros j Hj IH m. unfold Z.succ. rewrite etat_mois_succ by assumption.
      unfold mois_step.
      destruct (l_leftover _ >? lit_1e_9); cbn.
      * destruct (_ <=? lit_1e_9).
        -- destruct (l_mois_plafond _) as [m0|] eqn:Hm0.
           ++ intros [= <-]. specialize (IH m0 eq_refl). lia.
           ++ intros [= <-]. lia.
        -- intros Hm. specialize (IH m Hm). lia.
      * intros Hm. specialize (IH m Hm). lia.
  - rewrite etat_mois_nonpos by lia. unfold depot_initial.
    destruct (plafond >? lit_0); cbn; [|discriminate].
    destruct (_ <=? lit_1e_9); [|discriminate]. intros [= <-]. lia.
Qed.
End Schedule.

Section ScheduleProperties.
Context {num : Type} {A : Arith num}.
Local Open Scope num_scope.

Variables duree_annees capital_initial versement_mensuel plafond_pea : num.

(** X1. What is contributed, the month the cap is reached and the number
    of history entries do not depend on the rate of return, the fees, the
    inflation or the tax rate: two runs of [simulate_pea] that differ only
    in those agree on all three. *)
Theorem contributions_independent_of_returns
    (taux frais taux_impot inflation taux' frais' taux_impot' inflation' : num)
    (r r' : SimulationResult num) :
  simulate_pea duree_annees taux capital_initial versement_mensuel
    plafond_pea frais taux_impot inflation = Ok r ->
  simulate_pea duree_annees taux' capital_initial versement_mensuel
    plafond_pea frais' taux_impot' inflation' = Ok r' ->
  net_investi r = net_investi r'
  /\ mois_plafond r = mois_plafond r'
  /\ List.length (historique r) = List.length (historique r').
Proof.
  intros Hr Hr'.
  apply simulate_pea_inv in Hr as [n [Hn ->]].
  apply simulate_pea_inv in Hr' as [n' [Hn' ->]].
  assert (n' = n) as -> by congruence.
  cbn [net_investi mois_plafond historique].
  destruct (etat_mois_schedule taux taux' frais frais' inflation inflation'
              capital_initial versement_mensuel plafond_pea n)
    as [Hnet [_ Hmois]].
  split; [exact Hnet|]. split; [exact Hmois|].
  now rewrite !etat_mois_historique_length.
Qed.

(** X2. The month [simulate_pea] reports for the cap is a month of the
    run: between 0 (the initial deposit) and the number of months
    simulated. *)
Theorem cap_month_within_run
    (taux frais taux_impot inflation : num)
    (r : SimulationResult num) (nb_mois m : Z) :
  simulate_pea duree_annees taux capital_initial versement_mensuel
    plafond_pea frais taux_impot inflation = Ok r ->
  num_int (duree_annees * lit_12) = Ok nb_mois ->
  mois_plafond r = Some m ->
  (0 <= m <= Z.max 0 nb_mois)%Z.
Proof.
  intros Hr Hn Hm.
  rewrite (simulate_pea_ok _ _ _ _ _ _ _ _ _ Hn) in Hr.
  cbv zeta in Hr. injection Hr as <-. cbn [mois_plafond] in Hm.
  eapply etat_mois_plafond_range. exact Hm.
Qed.

Variables frais inflation taux_impot : num.

(** X3. All scenarios of one comparison reach the cap at the same month
    (their [plafond_atteint] strings are equal) and have histories of the
    same length, whatever their rates. *)
Theorem scenarios_share_schedule
    (rates : list num) (rapport : Rapport num) (data : list (Scenario num))
    (sc sc' : Scenario num) :
  calcul_scenarios duree_annees capital_initial versement_mensuel
    plafond_pea rates frais inflation taux_impot = Ok (rapport, data) ->
  In sc data -> In sc' data ->
  sc_plafond_atteint sc = sc_plafond_atteint sc'
  /\ List.length (sc_historique sc) = List.length (sc_historique sc').
Proof.
  intros Hcalc Hin Hin'. unfold calcul_scenarios in Hcalc.
  destruct (negb _); [injection Hcalc as _ <-; contradiction|].
  destruct (mapM _ rates) as [ds|e] eqn:Hmap; cbn in Hcalc; [|discriminate].
  injection Hcalc as _ <-. apply mapM_ok_length in Hmap.
  assert (Hall : forall s, In s ds ->
            exists taux,
              scenario duree_annees capital_initial versement_mensuel
                plafond_pea frais inflation taux_impot taux = Ok s).
  { clear Hin Hin'. induction Hmap as [|t s ts ss Hs _ IH]; [contradiction|].
    intros s0 [<-|Hs0]; [now exists t|now apply IH]. }
  destruct (Hall sc Hin) as [t Ht]. destruct (Hall sc' Hin') as [t' Ht'].
  destruct (num_int (duree_annees * lit_12)) as [n|e] eqn:Hint.
  - rewrite (scenario_ok _ _ _ _ _ _ _ _ _ Hint) in Ht.
    rewrite (scenario_ok _ _ _ _ _ _ _ _ _ Hint) in Ht'.
    cbv zeta in Ht, Ht'. injection Ht as <-. injection Ht' as <-.
    cbn [sc_plafond_atteint sc_historique].
    destruct (etat_mois_schedule t t' frais frais inflation inflation
                capital_initial versement_mensuel plafond_pea n)
      as [_ [_ Hmois]].
    rewrite Hmois. split; [reflexivity|].
    now rewrite !etat_mois_historique_length.
  - unfold scenario, simulate_pea in Ht. rewrite Hint in Ht. discriminate.
Qed.

(** X4. With three rates, [calcul_scenarios] raises an exception exactly
    when [int(duree_annees * 12)] raises it, and then that same
    exception. *)
Theorem comparator_raises_iff (rates : list num) (e : exn) :
  List.length rates = 3%nat ->
  (calcul_scenarios duree_annees capital_initial versement_mensuel
     plafond_pea rates frais inflation taux_impot = Raise e
   <-> num_int (duree_annees * lit_12) = Raise e).
Proof.
  intros Hlen. split; [apply calcul_scenarios_raises|].
  intros Hint. unfold calcul_scenarios. rewrite Hlen. cbn [Nat.eqb negb].
  destruct rates as [|taux rates']; [discriminate|].
  cbn [mapM]. unfold scenario at 1, simulate_pea. rewrite Hint. reflexivity.
Qed.
End ScheduleProperties.

(** The schedule properties at work on the binary64 program. *)

Module ScheduleRuns.
Import Float64.
Import Floats.
Local Open Scope float_scope.

Lemma contributions_independent_of_returns_witness :
  exists r r',
    simulate_pea (A := Float64.arith) 2 6 10000 1000 15000 0 17.2 0 = Ok r
    /\ simulate_pea (A := Float64.arith) 2 10 10000 1000 15000 0.5 30 1
       = Ok r'
    /\ net_investi r = net_investi r'
    /\ mois_plafond r = mois_plafond r'
    /\ List.length (historique r) = List.length (historique r').
Proof.
  assert (H : exists r,
             simulate_pea (A := Float64.arith) 2 6 10000 1000 15000 0 17.2 0
             = Ok r) by (vm_compute; eexists; reflexivity).
  assert (H' : exists r,
             simulate_pea (A := Float64.arith) 2 10 10000 1000 15000 0.5 30 1
             = Ok r) by (vm_compute; eexists; reflexivity).
  destruct H as [r Hr]. destruct H' as [r' Hr']. exists r, r'.
  split; [exact Hr|]. split; [exact Hr'|].
  exact (contributions_independent_of_returns (A := Float64.arith)
           2 10000 1000 15000 6 0 17.2 0 10 0.5 30 1 r r' Hr Hr').
Defined.

Lemma cap_month_within_run_witness :
  exists r,
    simulate_pea (A := Float64.arith) 2 6 10000 1000 15000 0 17.2 0 = Ok r
    /\ mois_plafond r = Some 5%Z
    /\ (0 <= 5 <= Z.max 0 24)%Z.
Proof.
  assert (H : exists r,
             simulate_pea (A := Float64.arith) 2 6 10000 1000 15000 0 17.2 0
             = Ok r /\ mois_plafond r = Some 5%Z)
    by (vm_compute; eexists; split; reflexivity).
  destruct H as [r [Hr Hm]]. exists r.
  split; [exact Hr|]. split; [exact Hm|].
  apply (cap_month_within_run (A := Float64.arith) 2 10000 1000 15000
           6 0 17.2 0 r 24 5 Hr); [vm_compute; reflexivity | exact Hm].
Defined.

Lemma scenarios_share_schedule_witness :
  exists rapport sc1 sc2 sc3,
    calcul_scenarios (A := Float64.arith) 2 10000 1000 15000
      [6; 8; 10] 0.5 1 17.2 = Ok (rapport, [sc1; sc2; sc3])
    /\ sc_plafond_atteint sc1 = sc_plafond_atteint sc3
    /\ List.length (sc_historique sc1) = List.length (sc_historique sc3).
Proof.
  assert (H : exists rapport sc1 sc2 sc3,
             calcul_scenarios (A := Float64.arith) 2 10000 1000 15000
               [6; 8; 10] 0.5 1 17.2 = Ok (rapport, [sc1; sc2; sc3]))
    by (vm_compute; do 4 eexists; reflexivity).
  destruct H as [rapport [sc1 [sc2 [sc3 H]]]]. exists rapport, sc1, sc2, sc3.
  split; [exact H|].
  apply (scenarios_share_schedule (A := Float64.arith) 2 10000 1000 15000
           0.5 1 17.2 [6; 8; 10] rapport [sc1; sc2; sc3] sc1 sc3 H).
  - left. reflexivity.
  - right. right. left. reflexivity.
Defined.

Lemma comparator_raises_iff_witness :
  calcul_scenarios (A := Float64.arith) 1e308 10000 1000 15000
    [6; 8; 10] 0.5 1 17.2 = Raise OverflowError.
Proof.
  apply (comparator_raises_iff (A := Float64.arith) 1e308 10000 1000 15000
           0.5 1 17.2 [6; 8; 10] OverflowError).
  - reflexivity.
  - vm_compute. reflexivity.
Defined.
End ScheduleRuns.

(** ** The contribution cap on binary64 *)

Module Float64Cap.
Import Floats.
Import Float64 Rounding64 Float64Facts.
Local Open Scope float_scope.

Lemma SFcompare_antisym (x y : spec_float) :
  SFcompare y x = option_map CompOpp (SFcompare x y).
Proof.
  destruct x as [s|s| |s m e], y as [s'|s'| |s' m' e']; cbn;
    try reflexivity; try (destruct s; reflexivity);
    try (destruct s'; reflexivity); try (destruct s, s'; reflexivity).
  change (Pos.compare_cont Eq m m') with (Pos.compare m m').
  change (Pos.compare_cont Eq m' m) with (Pos.compare m' m).
  rewrite (Z.compare_antisym e e'), (Pos.compare_antisym m m').
  destruct s, s'; cbn; try reflexivity;
    destruct (e ?= e')%Z; cbn; try reflexivity.
Qed.

(** [x <= y] excludes [y < x]. *)
Lemma leb_true_ltb_false (x y : float) : (x <=? y) = true -> (y <? x) = false.
Proof.
  rewrite leb_spec, ltb_spec. unfold SFleb, SFltb.
  rewrite (SFcompare_antisym (Prim2SF x) (Prim2SF y)).
  destruct (SFcompare (Prim2SF x) (Prim2SF y)) as [[ | | ]|]; cbn;
    congruence.
Qed.

Section Run.
Variables duree_annees taux_annuel_percent capital_initial : float.
Variables versement_mensuel plafond_pea : float.
Variables frais_annuels_percent taux_impot_percent inflation_percent : float.

(** Whenever a cap-reached month is recorded, the remaining cap is within
    the tolerance. *)
Lemma etat_mois_plafond_leftover (k m : Z) :
  l_mois_plafond (etat_mois taux_annuel_percent capital_initial
                    versement_mensuel plafond_pea frais_annuels_percent
                    inflation_percent k) = Some m ->
  (l_leftover (etat_mois taux_annuel_percent capital_initial
                 versement_mensuel plafond_pea frais_annuels_percent
                 inflation_percent k) <=? 1e-9) = true.
Proof.
  unfold etat_mois.
  set (l0 := depot_initial capital_initial plafond_pea).
  assert (H0 : forall m0, l_mois_plafond l0 = Some m0 ->
                          (l_leftover l0 <=? 1e-9) = true).
  { subst l0. unfold depot_initial. cbn [num_ltb num_leb num_sub lit_0 lit_1e_9 arith].
    destruct (0 <? plafond_pea); cbn; [|discriminate].
    destruct (_ <=? 1e-9) eqn:Hle; [reflexivity|discriminate]. }
  destruct (Z.le_gt_cases 0 k) as [Hk|Hk]; [|rewrite boucle_nonpos by lia; apply H0].
  revert m.
  apply (boucle_ind (A := arith) _ _ _
           (fun _ l => forall m0, l_mois_plafond l = Some m0 ->
                                  (l_leftover l <=? 1e-9) = true));
    [exact H0| |assumption].
  intros j lj _ IH m0. unfold mois_step.
  cbn [num_ltb num_leb num_sub lit_1e_9 arith].
  destruct (1e-9 <? l_leftover lj) eqn:Hgt; cbn.
  - destruct (l_leftover lj - py_min versement_mensuel (l_leftover lj)
              <=? 1e-9) eqn:Hle; [reflexivity|].
    intros Hm. specialize (IH m0 Hm).
    apply leb_true_ltb_false in IH. congruence.
  - apply IH.
Qed.

(** Once a cap-reached month is recorded, later months change neither
    it, nor what was contributed, nor what is left of the cap. *)
Lemma etat_mois_plafond_stable (k j m : Z) :
  (k <= j)%Z ->
  l_mois_plafond (etat_mois taux_annuel_percent capital_initial
                    versement_mensuel plafond_pea frais_annuels_percent
                    inflation_percent k) = Some m ->
  let l := etat_mois taux_annuel_percent capital_initial versement_mensuel
             plafond_pea frais_annuels_percent inflation_percent k in
  let l' := etat_mois taux_annuel_percent capital_initial versement_mensuel
              plafond_pea frais_annuels_percent inflation_percent j in
  l_net_investi l' = l_net_investi l
  /\ l_leftover l' = l_leftover l
  /\ l_mois_plafond l' = Some m.
Proof.
  intros Hkj Hm l l'. subst l l'.
  replace j with (k + (j - k))%Z by lia.
  assert (Hd : (0 <= j - k)%Z) by lia. revert Hd.
  generalize (j - k)%Z. intros d Hd. pattern d.
  apply natlike_ind; [| |assumption].
  - rewrite Z.add_0_r. auto.
  - intros i Hi [Hn [Hl Hmi]]. unfold Z.succ. rewrite Z.add_assoc.
    destruct (Z.le_gt_cases 0 (k + i)) as [Hpos|Hneg].
    + rewrite etat_mois_succ by lia.
      rewrite (mois_step_capital_no_deposit (A := arith)).
      * cbn. auto.
      * apply leb_true_ltb_false.
        now apply etat_mois_plafond_leftover with m.
    + rewrite (etat_mois_nonpos _ _ _ _ _ _ (k + i + 1)) by lia.
      rewrite (etat_mois_nonpos _ _ _ _ _ _ (k + i)) in Hn, Hl, Hmi by lia.
      auto.
Qed.

(** X6. Once the cap has been reached nothing more is contributed:
    running the same account for longer reports the same cap month and
    the same total contributed. *)
Theorem cap_reached_stops_contributions
    (duree_annees' : float) (r r' : SimulationResult float) (k j m : Z) :
  int_of_SF (Prim2SF (duree_annees * 12)) = Ok k ->
  int_of_SF (Prim2SF (duree_annees' * 12)) = Ok j ->
  (k <= j)%Z ->
  simulate_pea duree_annees taux_annuel_percent capital_initial
    versement_mensuel plafond_pea frais_annuels_percent
    taux_impot_percent inflation_percent = Ok r ->
  simulate_pea duree_annees' taux_annuel_percent capital_initial
    versement_mensuel plafond_pea frais_annuels_percent
    taux_impot_percent inflation_percent = Ok r' ->
  mois_plafond r = Some m ->
  mois_plafond r' = Some m /\ net_investi r' = net_investi r.
Proof.
  intros Hk Hj Hkj Hr Hr' Hm.
  rewrite (simulate_pea_ok (A := arith) _ _ _ _ _ _ _ _ k Hk) in Hr.
  rewrite (simulate_pea_ok (A := arith) _ _ _ _ _ _ _ _ j Hj) in Hr'.
  cbv zeta in Hr, Hr'. injection Hr as <-. injection Hr' as <-.
  cbn [mois_plafond net_investi] in *.
  destruct (etat_mois_plafond_stable k j m Hkj Hm) as [Hnet [_ Hmois]].
  split; assumption.
Qed.

(** X7. With a positive cap, after any number of months the loop has
    recorded a cap-reached month exactly when what is left of the cap is
    within the tolerance [1e-9]: [mois_plafond is None] if and only if
    [leftover <= 1e-9] is false. *)
Theorem cap_reached_iff_within_tolerance (k : Z) :
  (0 <? plafond_pea) = true ->
  is_none (l_mois_plafond
             (etat_mois taux_annuel_percent capital_initial versement_mensuel
                plafond_pea frais_annuels_percent inflation_percent k))
  = negb (l_leftover
            (etat_mois taux_annuel_percent capital_initial versement_mensuel
               plafond_pea frais_annuels_percent inflation_percent k)
          <=? 1e-9).
Proof.
  intros Hpos.
  set (l := etat_mois taux_annuel_percent capital_initial versement_mensuel
              plafond_pea frais_annuels_percent inflation_percent k).
  destruct (l_mois_plafond l) as [m|] eqn:Hm; cbn [is_none].
  - subst l. now rewrite (etat_mois_plafond_leftover k m Hm).
  - revert Hm. subst l. unfold etat_mois.
    set (l0 := depot_initial capital_initial plafond_pea).
    assert (H0 : l_mois_plafond l0 = None ->
                 true = negb (l_leftover l0 <=? 1e-9)).
    { subst l0. unfold depot_initial.
      cbn [num_ltb num_leb num_sub lit_0 lit_1e_9 arith]. rewrite Hpos. cbn.
      destruct (plafond_pea - py_min capital_initial plafond_pea <=? 1e-9);
        [discriminate|reflexivity]. }
    destruct (Z.le_gt_cases 0 k) as [Hk|Hk];
      [|rewrite boucle_nonpos by lia; apply H0].
    apply (boucle_ind (A := arith) _ _ _
             (fun _ l => l_mois_plafond l = None ->
                         true = negb (l_leftover l <=? 1e-9)));
      [exact H0| |assumption].
    intros j lj _ IH. unfold mois_step.
    cbn [num_ltb num_leb num_sub lit_1e_9 arith].
    destruct (1e-9 <? l_leftover lj) eqn:Hgt; cbn; [|exact IH].
    destruct (l_leftover lj - py_min versement_mensuel (l_leftover lj)
              <=? 1e-9) eqn:Hle; [|reflexivity].
    destruct (l_mois_plafond lj); discriminate.
Qed.
End Run.

(** X8. In every scenario the comparator returns, the gross interest is
    never less than zero, and neither is the tax when the tax rate is not
    negative (the comparisons [interets_bruts < 0] and [impots < 0] are
    false; a NaN, which an overflowing capital produces, passes them
    too). *)
Theorem scenario_gains_and_tax_not_negative
    (duree_annees capital_initial versement_mensuel plafond_pea : float)
    (rates : list float) (frais inflation taux_impot : float)
    (rapport : Rapport float) (data : list (Scenario float)) :
  calcul_scenarios duree_annees capital_initial versement_mensuel
    plafond_pea rates frais inflation taux_impot = Ok (rapport, data) ->
  Forall (fun sc =>
            (sc_interets_bruts sc <? 0) = false
            /\ ((0 <=? taux_impot) = true -> (sc_impots sc <? 0) = false))
         data.
Proof.
  intros Hcalc. unfold calcul_scenarios in Hcalc.
  destruct (negb _); [injection Hcalc as _ <-; constructor|].
  destruct (mapM _ rates) as [ds|e] eqn:Hmap; cbn in Hcalc; [|discriminate].
  injection Hcalc as _ <-. apply mapM_ok_length in Hmap.
  induction Hmap as [|t s ts ss Hs _ IH]; constructor; [|exact IH].
  destruct (num_int (duree_annees * lit_12)%num) as [n|e] eqn:Hint.
  - rewrite (scenario_ok (A := arith) _ _ _ _ _ _ _ _ _ Hint) in Hs.
    cbv zeta in Hs. injection Hs as <-.
    cbn [sc_interets_bruts sc_impots]. unfold impots, interets_bruts.
    cbn [num_sub num_mul num_div lit_100 lit_0 arith].
    split; [apply py_max_0_nonneg|].
    intros Htax. apply mul_nonneg;
      [now apply div_100_nonneg | apply py_max_0_nonneg].
  - unfold scenario, simulate_pea in Hs. rewrite Hint in Hs. discriminate.
Qed.

Lemma cap_reached_stops_contributions_witness :
  exists r r',
    simulate_pea (A := arith) 1 6 10000 1000 15000 0 17.2 0 = Ok r
    /\ simulate_pea (A := arith) 2 6 10000 1000 15000 0 17.2 0 = Ok r'
    /\ mois_plafond r = Some 5%Z
    /\ mois_plafond r' = Some 5%Z
    /\ net_investi r' = net_investi r.
Proof.
  assert (H : exists r,
             simulate_pea (A := arith) 1 6 10000 1000 15000 0 17.2 0 = Ok r
             /\ mois_plafond r = Some 5%Z)
    by (vm_compute; eexists; split; reflexivity).
  assert (H' : exists r,
             simulate_pea (A := arith) 2 6 10000 1000 15000 0 17.2 0 = Ok r)
    by (vm_compute; eexists; reflexivity).
  destruct H as [r [Hr Hm]]. destruct H' as [r' Hr']. exists r, r'.
  split; [exact Hr|]. split; [exact Hr'|]. split; [exact Hm|].
  apply (cap_reached_stops_contributions 1 6 10000 1000 15000 0 17.2 0
           2 r r' 12 24 5); try assumption; try (vm_compute; reflexivity).
  lia.
Defined.

Lemma cap_reached_iff_within_tolerance_witness :
  is_none (l_mois_plafond (etat_mois (A := arith) 6 10000 1000 15000 0 0 3))
  = negb (l_leftover (etat_mois (A := arith) 6 10000 1000 15000 0 0 3)
          <=? 1e-9).
Proof.
  apply (cap_reached_iff_within_tolerance 6 10000 1000 15000 0 0 3).
  vm_compute. reflexivity.
Defined.

Lemma scenario_gains_and_tax_not_negative_witness :
  exists rapport data,
    calcul_scenarios (A := arith) 2 10000 1000 15000 [6; 8; 10] 0.5 1 17.2
    = Ok (rapport, data)
    /\ Forall (fun sc =>
                 (sc_interets_bruts sc <? 0) = false
                 /\ ((0 <=? 17.2) = true -> (sc_impots sc <? 0) = false))
         data.
Proof.
  assert (H : exists rapport data,
             calcul_scenarios (A := arith) 2 10000 1000 15000 [6; 8; 10]
               0.5 1 17.2 = Ok (rapport, data))
    by (vm_compute; do 2 eexists; reflexivity).
  destruct H as [rapport [data H]]. exists rapport, data.
  split; [exact H|].
  exact (scenario_gains_and_tax_not_negative 2 10000 1000 15000 [6; 8; 10]
           0.5 1 17.2 rapport data H).
Defined.
End Float64Cap.


(** ** The strings of [format_duree_mois] *)

Lemma sans_espace_uint (d : Decimal.uint) :
  sans_espace (NilEmpty.string_of_uint d) = true.
Proof. induction d; cbn; auto. Qed.

Lemma sans_espace_str_of_int (n : Z) : sans_espace (str_of_int n) = true.
Proof.
  unfold str_of_int, NilZero.string_of_int, NilZero.string_of_uint.
  destruct (Z.to_int n) as [d|d]; destruct d; cbn;
    try reflexivity; apply sans_espace_uint.
Qed.

Lemma str_of_int_inj (n n' : Z) : str_of_int n = str_of_int n' -> n = n'.
Proof.
  unfold str_of_int. intros H.
  assert (Hnz : forall k, Z.to_int k <> Decimal.Pos Decimal.Nil
                          /\ Z.to_int k <> Decimal.Neg Decimal.Nil).
  { intros [|p|p]; cbn; split; try discriminate;
      intros [= Hp]; now apply DecimalPos.Unsigned.to_uint_nonnil in Hp. }
  destruct (Hnz n) as [H1 H2]. destruct (Hnz n') as [H1' H2'].
  pose proof (NilZero.isi _ H1 H2) as Hs.
  pose proof (NilZero.isi _ H1' H2') as Hs'.
  rewrite H in Hs. rewrite Hs in Hs'. injection Hs' as Hd.
  rewrite <- (DecimalZ.of_to n), <- (DecimalZ.of_to n'). now rewrite Hd.
Qed.

Lemma split_space (s1 s2 r1 r2 : string) :
  sans_espace s1 = true -> sans_espace s2 = true ->
  (s1 ++ String " " r1)%string = (s2 ++ String " " r2)%string ->
  s1 = s2 /\ r1 = r2.
Proof.
  revert s2. induction s1 as [|c s1 IH]; intros [|c' s2] H1 H2 H; cbn in *.
  - now injection H.
  - injection H as <- _. discriminate.
  - injection H as -> _. discriminate.
  - injection H as <- H. apply andb_prop in H1 as [_ H1].
    apply andb_prop in H2 as [_ H2].
    destruct (IH s2 H1 H2 H) as [-> ->]. auto.
Qed.

Lemma suite_inj (m m' : Z) :
  (if m =? 0 then EmptyString
   else (" et " ++ str_of_int m ++ " mois")%string)
  = (if m' =? 0 then EmptyString
     else (" et " ++ str_of_int m' ++ " mois")%string) ->
  m = m'.
Proof.
  destruct (Z.eqb_spec m 0) as [->|Hm], (Z.eqb_spec m' 0) as [->|Hm'];
    cbn; try discriminate; [reflexivity|].
  intros [= H].
  apply split_space in H as [H _]; try apply sans_espace_str_of_int.
  now apply str_of_int_inj.
Qed.

(** X14. [format_duree_mois] never gives the same string for two
    different numbers of months: the text shown for the cap month
    determines the month. *)
Theorem format_duree_mois_injective (n n' : Z) :
  format_duree_mois n = format_duree_mois n' <-> n = n'.
Proof.
  split; [|now intros ->].
  unfold format_duree_mois. cbv zeta. intros H.
  rewrite (Z.div_mod n 12), (Z.div_mod n' 12) by lia.
  revert H. generalize (n mod 12), (n / 12), (n' mod 12), (n' / 12).
  intros m a m' a'.
  destruct (Z.eqb_spec a 0) as [->|Ha0], (Z.eqb_spec a' 0) as [->|Ha0'].
  - intros H.
    apply split_space in H as [H _]; try apply sans_espace_str_of_int.
    apply str_of_int_inj in H. now subst.
  - destruct (a' =? 1); intros H.
    + apply (split_space (str_of_int m) "1") in H as [_ H];
        [discriminate|apply sans_espace_str_of_int|reflexivity].
    + apply split_space in H as [_ H]; try apply sans_espace_str_of_int.
      discriminate.
  - destruct (a =? 1); intros H.
    + apply (split_space "1" (str_of_int m')) in H as [_ H];
        [discriminate|reflexivity|apply sans_espace_str_of_int].
    + apply split_space in H as [_ H]; try apply sans_espace_str_of_int.
      discriminate.
  - destruct (Z.eqb_spec a 1) as [->|Ha1], (Z.eqb_spec a' 1) as [->|Ha1'].
    + intros [= H]. apply suite_inj in H. now subst.
    + intros H.
      apply (split_space "1" (str_of_int a')) in H as [_ H];
        [|reflexivity|apply sans_espace_str_of_int].
      injection H as H. destruct (m =? 0); discriminate.
    + intros H.
      apply (split_space (str_of_int a) "1") in H as [_ H];
        [|apply sans_espace_str_of_int|reflexivity].
      injection H as H. destruct (m' =? 0); discriminate.
    + intros H.
      apply split_space in H as [Ha H]; try apply sans_espace_str_of_int.
      apply str_of_int_inj in Ha. injection H as H.
      apply suite_inj in H. now subst.
Qed.

(** ** The report and the window *)

Section InterfaceProperties.
Context {num : Type} {A : Arith num}.
Local Open Scope num_scope.

Lemma scenario_taux
    (duree capital_initial versement plafond frais inflation taux_impot : num)
    (rates : list num) (data : list (Scenario num)) :
  mapM (scenario duree capital_initial versement plafond frais inflation
          taux_impot) rates = Ok data ->
  map (@sc_taux num) data = rates.
Proof.
  intros Hmap. apply mapM_ok_length in Hmap.
  induction Hmap as [|taux sc rs ds Hsc _ IH]; [reflexivity|].
  cbn. rewrite IH. f_equal.
  destruct (num_int (duree * lit_12)) as [n|e] eqn:Hint.
  - rewrite (scenario_ok _ _ _ _ _ _ _ _ _ Hint) in Hsc.
    now injection Hsc as <-.
  - unfold scenario, simulate_pea in Hsc. rewrite Hint in Hsc. discriminate.
Qed.

(** Plotting scenarios whose histories all have the length of [months]
    raises nothing and adds one curve per scenario, in order. *)
Lemma tracer_ok (months : list Z) (scenarios : list (Scenario num))
    (w : Fenetre num) :
  Forall (fun sc => List.length (sc_historique sc) = List.length months)
    scenarios ->
  exists w',
    tracer months scenarios w = (w', None)
    /\ text_result w' = text_result w
    /\ erreurs w' = erreurs w
    /\ courbes w'
       = courbes w
         ++ map (fun sc => {| c_x := months; c_y := sc_historique sc;
                              c_label := sc_taux sc |}) scenarios.
Proof.
  intros Hall. revert w.
  induction Hall as [|sc scs Hsc _ IH]; intros w; cbn [tracer map].
  - exists w. now rewrite app_nil_r.
  - unfold ax_plot. rewrite Hsc, Nat.eqb_refl.
    match goal with |- context [tracer months scs ?w1] =>
      destruct (IH w1) as [w' [Hrun [Htext [Herr Hcurves]]]] end.
    exists w'. cbn in Htext, Herr, Hcurves.
    now rewrite Hrun, Htext, Herr, Hcurves, <- app_assoc.
Qed.

Variable canvas_draw : Fenetre num -> option exn.

(** What [run_simulation] does with fields that all hold a number, when
    [int()] accepts the duration: it reaches [canvas.draw()] with the
    report, the three curves and the decorations in place. *)
Lemma run_simulation_ok (w : Fenetre num) (s : Saisie num) (nb_mois : Z) :
  lire_champs w = Some s ->
  num_int (s_duree s * lit_12) = Ok nb_mois ->
  exists w' lines data,
    run_simulation canvas_draw w = (w', canvas_draw w')
    /\ calcul_scenarios (s_duree s) (s_capital_initial s) (s_versement s)
         (s_plafond s) [s_rate1 s; s_rate2 s; s_rate3 s] (s_frais s)
         (s_inflation s) (s_taux_impot s) = Ok (Comparatif lines, data)
    /\ text_result w' = Some (Comparatif lines)
    /\ erreurs w' = erreurs w
    /\ courbes w'
       = map (fun sc =>
                {| c_x := range 0 (Z.max 0 nb_mois + 1)%Z;
                   c_y := sc_historique sc;
                   c_label := sc_taux sc |}) data
    /\ map (@sc_taux num) data = [s_rate1 s; s_rate2 s; s_rate3 s]
    /\ Forall (fun sc => Z.of_nat (List.length (sc_historique sc))
                         = (Z.max 0 nb_mois + 1)%Z) data
    /\ (ax_xlabel w' = "Mois"%string
        /\ ax_ylabel w' = "Capital (€)"%string
        /\ ax_title w' = "Évolution du capital dans le temps"%string
        /\ ax_legend w' = true).
Proof.
  intros Hlire Hint. unfold run_simulation. rewrite Hlire.
  unfold calcul_scenarios. cbn [List.length Nat.eqb negb].
  set (f := scenario (s_duree s) (s_capital_initial s) (s_versement s)
              (s_plafond s) (s_frais s) (s_inflation s) (s_taux_impot s)).
  destruct (mapM_total f [s_rate1 s; s_rate2 s; s_rate3 s]) as [data Hdata].
  { intros taux _. subst f.
    rewrite (scenario_ok _ _ _ _ _ _ _ _ _ Hint). now eexists. }
  rewrite Hdata. cbn [bind].
  pose proof (scenario_taux _ _ _ _ _ _ _ _ _ Hdata) as Htaux.
  assert (Hlen : Forall (fun sc => Z.of_nat (List.length (sc_historique sc))
                                   = (Z.max 0 nb_mois + 1)%Z) data).
  { apply mapM_ok_length in Hdata. clear Htaux.
    induction Hdata as [|taux sc rs ds Hsc _ IH]; constructor; [|exact IH].
    subst f. rewrite (scenario_ok _ _ _ _ _ _ _ _ _ Hint) in Hsc.
    injection Hsc as <-. cbn [sc_historique].
    rewrite etat_mois_historique_length. lia. }
  destruct data as [|premier suite]; [discriminate|].
  cbv zeta.
  assert (Hmonths : range 0 (Z.of_nat (List.length (sc_historique premier)))
                    = range 0 (Z.max 0 nb_mois + 1)%Z).
  { inversion Hlen as [|? ? Hp _]. now rewrite Hp. }
  rewrite Hmonths.
  match goal with |- context [tracer ?m ?scs ?w1] =>
    destruct (tracer_ok m scs w1) as [w' [Hrun [Htext [Herr Hcurves]]]] end.
  { eapply Forall_impl; [|exact Hlen]. intros sc Hsc. cbv beta in Hsc.
    unfold range. rewrite length_map, length_seq. lia. }
  exists (decorer w'). eexists. exists (premier :: suite).
  rewrite Hrun.
  cbn [decorer afficher_rapport text_result erreurs courbes app
       ax_xlabel ax_ylabel ax_title ax_legend] in *.
  repeat split; assumption.
Qed.


(** X16. An exception that escapes [run_simulation] is either the one
    [int(duree * 12)] raises, before the window is touched (the text and
    the curves are left as they were), or one that [canvas.draw()] raises
    on the window once the report, the three curves and the decorations
    are in place.  In particular [scenarios[0]] never raises
    [IndexError] and [ax.plot] never fails on lengths that differ. *)
Theorem run_simulation_exception (w w' : Fenetre num) (e : exn) :
  run_simulation canvas_draw w = (w', Some e) ->
  (w' = w
   /\ exists s, lire_champs w = Some s
                /\ num_int (s_duree s * lit_12) = Raise e)
  \/ (canvas_draw w' = Some e
      /\ (exists lines, text_result w' = Some (Comparatif lines))
      /\ List.length (courbes w') = 3%nat
      /\ ax_legend w' = true).
Proof.
  intros Hrun. destruct (lire_champs w) as [s|] eqn:Hlire.
  - destruct (num_int (s_duree s * lit_12)) as [n|e'] eqn:Hint.
    + right.
      destruct (run_simulation_ok w s n Hlire Hint)
        as [w1 [lines [data [Hrun1 [_ [Htext [_ [Hcurves [Htaux
             [_ [_ [_ [_ Hleg]]]]]]]]]]]]].
      rewrite Hrun in Hrun1. injection Hrun1 as <- Hdraw.
      split; [now symmetry|]. split; [now exists lines|]. split; [|exact Hleg].
      rewrite Hcurves, length_map, <- (length_map (@sc_taux num)), Htaux.
      reflexivity.
    + left. unfold run_simulation in Hrun. rewrite Hlire in Hrun.
      unfold calcul_scenarios in Hrun.
      cbn [List.length Nat.eqb negb mapM] in Hrun.
      unfold scenario at 1, simulate_pea in Hrun. rewrite Hint in Hrun.
      cbn in Hrun. injection Hrun as <- <-. split; [reflexivity|].
      now exists s.
  - unfold run_simulation in Hrun. rewrite Hlire in Hrun. discriminate.
Qed.

End InterfaceProperties.

(** The report and the window at work on the binary64 program. *)

Module InterfaceRuns.
Import Float64 Float64Interface.
Import Floats.
Local Open Scope float_scope.


Lemma run_simulation_exception_witness :
  exists w w',
    var_duree w = Some 1e308
    /\ run_simulation (A := arith) (fun _ => None) w
       = (w', Some OverflowError)
    /\ w' = w
    /\ exists s, lire_champs w = Some s
                 /\ num_int (Arith := arith) (s_duree s * 12)
                    = Raise OverflowError.
Proof.
  pose (w := {| var_duree := Some 1e308; var_capital := Some 10000;
                var_versement := Some 1000; var_plafond := Some 150000;
                var_rate1 := Some 6; var_rate2 := Some 8;
                var_rate3 := Some 10; var_frais := Some 0;
                var_inflation := Some 0; var_taux_impot := Some 17.2;
                text_result := @None (Rapport float); courbes := [];
                ax_xlabel := EmptyString; ax_ylabel := EmptyString;
                ax_title := EmptyString; ax_legend := false;
                erreurs := [] |}).
  assert (H : exists w', run_simulation (A := arith) (fun _ => None) w
                         = (w', Some OverflowError))
    by (vm_compute; eexists; reflexivity).
  destruct H as [w' H]. exists w, w'. split; [reflexivity|].
  split; [exact H|].
  destruct (run_simulation_exception (A := arith) (fun _ => None)
              w w' OverflowError H) as [Hint|[Hdraw _]];
    [exact Hint|discriminate Hdraw].
Defined.

End InterfaceRuns.
